(** * combine_epg: a shallow embedding of the EPG combiner

    The Python script [combine_epg.py] fetches XMLTV documents, folds the
    [channel] and [programme] children of every fetched root into one [tv]
    element while dropping duplicates, and writes the result to a file.

    This development embeds the three functions [fetch_epg],
    [combine_epg_files] and [write_xml].  Python sets are [gset]s, the
    attribute dictionary of an element is an association list in
    insertion order, the child list of an element is a [list], the files
    are a [gmap] from paths to contents, and the two [for] loops are left
    folds whose loop bodies are separate step functions.  Calls of the
    libraries return or raise; what is printed goes through the standard
    output of the environment, which can raise as well. *)

From Stdlib Require Import Ascii.
From stdpp Require Import base option list sets gmap strings pretty sorting.

Local Open Scope string_scope.
Local Open Scope list_scope.

(** ** Elements of [xml.etree.ElementTree] *)

Module ET.

(** The attribute dictionary of an element.  A Python [dict] keeps its
    keys in insertion order, and the serializer walks them in that
    order, so the dictionary is an association list. *)
Abbreviation Attrib := (list (string * string)).

(** [d.get(key)] *)
Fixpoint dict_get (d : Attrib) (key : string) : option string :=
  match d with
  | [] => None
  | (k, v) :: d' => if String.eqb k key then Some v else dict_get d' key
  end.

(** [d[key] = value]: an existing key keeps its place, a new key goes last. *)
Fixpoint dict_set (d : Attrib) (key value : string) : Attrib :=
  match d with
  | [] => [(key, value)]
  | (k, v) :: d' =>
      if String.eqb k key then (k, value) :: d' else (k, v) :: dict_set d' key value
  end.

(** An [Element]: its tag, its attribute dictionary, its text and tail
    (which are [None] or a string), and the ordered list of its children. *)
#[local] Unset Elimination Schemes.
Inductive Element : Type :=
  mkElement {
    tag : string;
    attrib : Attrib;
    text : option string;
    tail : option string;
    children : list Element
  }.
#[local] Set Elimination Schemes.

(** [ET.Element(tag)]: no attribute, no text, no child. *)
Definition new (t : string) : Element :=
  mkElement t [] None None [].

(** [elem.get(key, default)] *)
Definition get (e : Element) (key default : string) : string :=
  match dict_get (attrib e) key with
  | Some v => v
  | None => default
  end.

(** [elem.set(key, value)] *)
Definition set (e : Element) (key value : string) : Element :=
  mkElement (tag e) (dict_set (attrib e) key value) (text e) (tail e) (children e).

(** [elem.append(sub)]: the new child goes last. *)
Definition append (e sub : Element) : Element :=
  mkElement (tag e) (attrib e) (text e) (tail e) (children e ++ [sub]).

(** [elem.findall(t)] for a plain tag name [t]: the direct children whose
    tag is [t], in document order, as a new list. *)
Definition findall (e : Element) (t : string) : list Element :=
  filter (λ c, tag c = t) (children e).

End ET.

Abbreviation Element := ET.Element.

(** Truth value of a Python [str]: false exactly for the empty string. *)
Definition truthy (s : string) : bool :=
  match s with
  | EmptyString => false
  | String _ _ => true
  end.

(** ** The merger: [combine_epg_files] *)

(** What [future.result()] yields: the triple [(name, root, error)]. *)
Record FetchResult : Type := mkResult {
  fr_name : string;
  fr_root : option Element;
  fr_error : option string
}.

(** Key of a programme in [seen_programmes]. *)
Abbreviation ProgKey := (string * string * string)%type.

(** The local variables of [combine_epg_files] that the loop mutates. *)
Record MergeState : Type := mkState {
  combined : Element;
  seen_channels : gset string;
  seen_programmes : gset ProgKey;
  total_channels : nat;
  total_programmes : nat;
  failed_sources : list (string * string)
}.

(** State before the first result is taken; [now] is the formatted UTC
    clock reading [datetime.now(timezone.utc).strftime('%Y%m%d%H%M%S')]. *)
Definition init (now : string) : MergeState :=
  let combined := ET.new "tv" in
  let combined := ET.set combined "generator-info-name" "CouchStreaming EPG Combiner" in
  let combined := ET.set combined "generator-info-url" "https://github.com/globetvapp/epg" in
  let combined := ET.set combined "date" now in
  {| combined := combined;
     seen_channels := ∅;
     seen_programmes := ∅;
     total_channels := 0;
     total_programmes := 0;
     failed_sources := [] |}.

Definition channel_id (channel : Element) : string :=
  ET.get channel "id" EmptyString.

Definition prog_key (programme : Element) : ProgKey :=
  (ET.get programme "channel" EmptyString,
   ET.get programme "start" EmptyString,
   ET.get programme "stop" EmptyString).

(** Body of [for channel in root.findall('channel')]. *)
Definition add_channel (st : MergeState) (channel : Element) : MergeState :=
  let channel_id := channel_id channel in
  if truthy channel_id && negb (bool_decide (channel_id ∈ seen_channels st)) then
    {| combined := ET.append (combined st) channel;
       seen_channels := {[channel_id]} ∪ seen_channels st;
       seen_programmes := seen_programmes st;
       total_channels := total_channels st + 1;
       total_programmes := total_programmes st;
       failed_sources := failed_sources st |}
  else st.

(** Body of [for programme in root.findall('programme')]. *)
Definition add_programme (st : MergeState) (programme : Element) : MergeState :=
  let prog_key := prog_key programme in
  if negb (bool_decide (prog_key ∈ seen_programmes st)) then
    {| combined := ET.append (combined st) programme;
       seen_channels := seen_channels st;
       seen_programmes := {[prog_key]} ∪ seen_programmes st;
       total_channels := total_channels st;
       total_programmes := total_programmes st + 1;
       failed_sources := failed_sources st |}
  else st.

(** The two loops over one fetched root, channels first. *)
Definition merge_root (st : MergeState) (root : Element) : MergeState :=
  let st := foldl add_channel st (ET.findall root "channel") in
  foldl add_programme st (ET.findall root "programme").

(** [failed_sources.append((name, error))] *)
Definition record_failure (st : MergeState) (name error : string) : MergeState :=
  {| combined := combined st;
     seen_channels := seen_channels st;
     seen_programmes := seen_programmes st;
     total_channels := total_channels st;
     total_programmes := total_programmes st;
     failed_sources := failed_sources st ++ [(name, error)] |}.

(** [if error:] holds for a string that is not empty; [None] and the
    empty string are both false. *)
Definition error_set (error : option string) : bool :=
  match error with
  | Some e => truthy e
  | None => false
  end.

(** Body of [for future in as_completed(futures)]. *)
Definition process_result (st : MergeState) (r : FetchResult) : MergeState :=
  if error_set (fr_error r) then
    record_failure st (fr_name r) (default EmptyString (fr_error r))
  else
    match fr_root r with
    | None => st
    | Some root => merge_root st root
    end.

(** [combine_epg_files], with the results in the order in which
    [as_completed] hands them over.  The Python function returns
    [combined]; the whole state is kept so that the locals can be
    spoken about. *)
Definition combine_epg_files (now : string) (completed : list FetchResult) : MergeState :=
  foldl process_result (init now) completed.

(** *** Observations on a merge state *)

(** The channel and the programme elements held by [combined]. *)
Definition accepted_channels (st : MergeState) : list Element :=
  ET.findall (combined st) "channel".

Definition accepted_programmes (st : MergeState) : list Element :=
  ET.findall (combined st) "programme".

Definition accepted_channel_ids (st : MergeState) : gset string :=
  list_to_set (channel_id <$> accepted_channels st).

Definition accepted_programme_keys (st : MergeState) : gset ProgKey :=
  list_to_set (prog_key <$> accepted_programmes st).

(** The states a loop passes through: the state after each iteration. *)
Fixpoint scanl {A S : Type} (f : S → A → S) (st : S) (l : list A) : list S :=
  match l with
  | [] => []
  | a :: l' => f st a :: scanl f (f st a) l'
  end.

(** The states after each iteration of the inner loops (or after the
    failure is recorded) while one result is processed from [st]. *)
Definition result_points (st : MergeState) (r : FetchResult) : list MergeState :=
  if error_set (fr_error r) then
    [record_failure st (fr_name r) (default EmptyString (fr_error r))]
  else
    match fr_root r with
    | None => []
    | Some root =>
        scanl add_channel st (ET.findall root "channel")
        ++ scanl add_programme
             (foldl add_channel st (ET.findall root "channel"))
             (ET.findall root "programme")
    end.

Fixpoint run_points (st : MergeState) (completed : list FetchResult) : list MergeState :=
  match completed with
  | [] => []
  | r :: rs => result_points st r ++ run_points (process_result st r) rs
  end.

(** Every state of a run of [combine_epg_files], the first one included. *)
Definition merge_points (now : string) (completed : list FetchResult) : list MergeState :=
  init now :: run_points (init now) completed.

(** What a result can add to the seen sets: nothing when it is skipped,
    else the non-empty ids of its channels and the keys of its programmes. *)
Definition root_channel_ids (root : Element) : gset string :=
  list_to_set (filter (λ i, truthy i = true) (channel_id <$> ET.findall root "channel")).

Definition root_programme_keys (root : Element) : gset ProgKey :=
  list_to_set (prog_key <$> ET.findall root "programme").

Definition merged_root (r : FetchResult) : option Element :=
  if error_set (fr_error r) then None else fr_root r.

Definition result_channel_ids (r : FetchResult) : gset string :=
  from_option root_channel_ids ∅ (merged_root r).

Definition result_programme_keys (r : FetchResult) : gset ProgKey :=
  from_option root_programme_keys ∅ (merged_root r).

(** The invariant of the merge loop. *)
Record merge_inv (st : MergeState) : Prop := {
  inv_channel_nodup : NoDup (channel_id <$> accepted_channels st);
  inv_channel_seen : seen_channels st = accepted_channel_ids st;
  inv_channel_total : total_channels st = length (accepted_channels st);
  inv_channel_truthy : Forall (λ c, truthy (channel_id c) = true) (accepted_channels st);
  inv_programme_nodup : NoDup (prog_key <$> accepted_programmes st);
  inv_programme_seen : seen_programmes st = accepted_programme_keys st;
  inv_programme_total : total_programmes st = length (accepted_programmes st)
}.

(** [combined] of [st'] holds the children of [combined] of [st] in the
    same places, and possibly more after them. *)
Definition grows (st st' : MergeState) : Prop :=
  ET.children (combined st) `prefix_of` ET.children (combined st').

(** Each state of [a :: l] is related to the next one. *)
Fixpoint chain {S : Type} (R : relation S) (a : S) (l : list S) : Prop :=
  match l with
  | [] => True
  | b :: l' => R a b ∧ chain R b l'
  end.

(** ** The fetcher: [fetch_epg] *)

(** Exceptions.  Each exception raised by a library call is an instance
    of [Exception]; the class recorded here is the most specific one
    among the classes that the handlers of [fetch_epg] name, and
    [exc_str] is the result of [str(e)]. *)
Inductive ExcClass : Type :=
  | Exception
  | URLError
  | HTTPError
  | ParseError.

Record Exc : Type := mkExc {
  exc_class : ExcClass;
  exc_str : string
}.

(** [issubclass]: [HTTPError] derives from [URLError], and every class
    derives from [Exception]. *)
Definition issubclass (c d : ExcClass) : bool :=
  match d, c with
  | Exception, _ => true
  | URLError, (URLError | HTTPError) => true
  | HTTPError, HTTPError => true
  | ParseError, ParseError => true
  | _, _ => false
  end.

(** A call either returns a value or raises. *)
Inductive Outcome (A : Type) : Type :=
  | Returns (a : A)
  | Raises (e : Exc).

Arguments Returns {A} a.
Arguments Raises {A} e.

Definition bind {A B : Type} (m : Outcome A) (k : A → Outcome B) : Outcome B :=
  match m with
  | Returns a => k a
  | Raises e => Raises e
  end.

Notation "x <~ m ;; k" := (bind m (λ x, k))
  (at level 100, m at next level, right associativity).

(** One [except (C1, ..., Cn) as e:] clause: the classes it names and
    its body. *)
Abbreviation Handler A := (list ExcClass * (Exc → Outcome A))%type.

(** [try: body  except ...: ...]: the first clause naming a class of the
    exception runs; with no such clause the exception goes on to the
    caller.  An exception raised by the body of a clause goes on to the
    caller as well. *)
Fixpoint handle {A : Type} (handlers : list (Handler A)) (e : Exc) : Outcome A :=
  match handlers with
  | [] => Raises e
  | (classes, body) :: rest =>
      if existsb (issubclass (exc_class e)) classes then body e else handle rest e
  end.

Definition try_except {A : Type} (body : Outcome A) (handlers : list (Handler A)) : Outcome A :=
  match body with
  | Returns a => Returns a
  | Raises e => handle handlers e
  end.

Abbreviation bytes := (list Byte.byte).

(** A response object: what [read()] does, the lookup
    [headers.get(name)], and whether closing it raises. *)
Record Response : Type := mkResponse {
  resp_read : Outcome bytes;
  resp_header : string → option string;
  resp_close : Outcome unit
}.

Record Request : Type := mkRequest {
  req_url : string;
  req_headers : list (string * string)
}.

(** The library calls of the program, whose results depend on the
    network, on the bytes received and on the standard output.
    [stdout_write] is what writing a text to the standard output does:
    it returns, or it raises (the stream cannot encode the text, or it
    is closed).  [format_mb] gives the text of
    [f"{size / (1024 * 1024):.2f}"] for a size in bytes. *)
Record World : Type := mkWorld {
  new_Request : string → list (string * string) → Outcome Request;
  urlopen : Request → nat → Outcome Response;
  gzip_decompress : bytes → Outcome bytes;
  fromstring : bytes → Outcome Element;
  stdout_write : string → Outcome unit;
  format_mb : nat → string
}.

Definition dquote : string := String "034"%char EmptyString.
Definition newline : string := String "010"%char EmptyString.

(** [print(s)]: the text and the line end go to the standard output. *)
Definition print (w : World) (s : string) : Outcome unit :=
  stdout_write w (s ++ newline).

(** [with response: body]: the response is closed when the body is left,
    by a return or by an exception. *)
Definition with_response {A : Type} (response : Response) (body : Outcome A) : Outcome A :=
  match body with
  | Returns a => _ <~ resp_close response ;; Returns a
  | Raises e =>
      match resp_close response with
      | Returns _ => Raises e
      | Raises e' => Raises e'
      end
  end.

(** [s.endswith(suffix)] *)
Definition endswith (s suffix : string) : bool :=
  let n := String.length s in
  let k := String.length suffix in
  (k <=? n)%nat && String.eqb (String.substring (n - k) k s) suffix.

Definition fetch_headers : list (string * string) :=
  [("User-Agent", "Mozilla/5.0 (Macintosh; Intel Mac OS X 10_15_7) AppleWebKit/537.36");
   ("Accept-Encoding", "gzip, deflate")].

(** The body of the [try] block, with its two progress prints. *)
Definition fetch_try (w : World) (name url : string) : Outcome FetchResult :=
  _ <~ stdout_write w ("  Fetching " ++ name ++ "..." ++ " ") ;;
  req <~ new_Request w url fetch_headers ;;
  response <~ urlopen w req 60 ;;
  with_response response (
    data <~ resp_read response ;;
    data <~ (if endswith url ".gz"
                || bool_decide (resp_header response "Content-Encoding" = Some "gzip")
             then gzip_decompress w data
             else Returns data) ;;
    root <~ fromstring w data ;;
    let channels := length (ET.findall root "channel") in
    let programmes := length (ET.findall root "programme") in
    _ <~ print w ("OK (" ++ pretty channels ++ " channels, "
                  ++ pretty programmes ++ " programmes)") ;;
    Returns (mkResult name (Some root) None)).

(** [fetch_epg(name, url)].  Each [except] clause prints before it
    returns, outside the [try] block. *)
Definition fetch_epg (w : World) (name url : string) : Outcome FetchResult :=
  try_except (fetch_try w name url)
    [ ([URLError; HTTPError],
       λ e, _ <~ print w ("FAILED (" ++ exc_str e ++ ")") ;;
            Returns (mkResult name None (Some (exc_str e))));
      ([ParseError],
       λ e, _ <~ print w ("PARSE ERROR (" ++ exc_str e ++ ")") ;;
            Returns (mkResult name None (Some (exc_str e))));
      ([Exception],
       λ e, _ <~ print w ("ERROR (" ++ exc_str e ++ ")") ;;
            Returns (mkResult name None (Some (exc_str e)))) ].

(** ** The writer: [write_xml] *)

(** The two fixed lines written before the tree. *)
Definition xml_declaration : string :=
  "<?xml version=" ++ dquote ++ "1.0" ++ dquote
  ++ " encoding=" ++ dquote ++ "UTF-8" ++ dquote ++ "?>" ++ newline.

Definition doctype : string :=
  "<!DOCTYPE tv SYSTEM " ++ dquote ++ "xmltv.dtd" ++ dquote ++ ">" ++ newline.

(** The files, by path, and the paths that cannot be opened for writing. *)
Record FileSystem : Type := mkFS {
  fs_files : gmap string string;
  fs_denied : gset string
}.

(** [open(path, 'w')]: the file is created or emptied. *)
Definition open_w (fs : FileSystem) (path : string) : Outcome FileSystem :=
  if bool_decide (path ∈ fs_denied fs) then
    Raises (mkExc Exception "Permission denied")
  else
    Returns (mkFS (<[path := EmptyString]> (fs_files fs)) (fs_denied fs)).

(** [f.write(s)] on the file opened at [path]: [s] goes at the end. *)
Definition file_write (fs : FileSystem) (path s : string) : FileSystem :=
  mkFS (alter (λ content : string, (content ++ s)%string) path (fs_files fs)) (fs_denied fs).

(** [os.path.getsize(path)]: the number of bytes of the file. *)
Definition getsize (fs : FileSystem) (path : string) : Outcome nat :=
  match fs_files fs !! path with
  | Some content => Returns (String.length content)
  | None => Raises (mkExc Exception "No such file or directory")
  end.

(** [write_xml(root, output_path)], for a serializer [tostring] standing
    for [ET.tostring(_, encoding='unicode')].  The files are changed by
    the three writes; what is printed afterwards can raise, and the files
    stay as written then.  The result is the files and whether the call
    returned. *)
Definition write_xml (w : World) (tostring : Element → string) (root : Element)
    (output_path : string) (fs : FileSystem) : FileSystem * Outcome unit :=
  let xml_str := tostring root in
  match open_w fs output_path with
  | Raises e => (fs, Raises e)
  | Returns fs =>
      let fs := file_write fs output_path xml_declaration in
      let fs := file_write fs output_path doctype in
      let fs := file_write fs output_path xml_str in
      (fs,
       _ <~ print w (newline ++ "Output written to: " ++ output_path) ;;
       size <~ getsize fs output_path ;;
       print w ("File size: " ++ format_mb w size ++ " MB"))
  end.

(** ** Sample data *)

Module Sample.

Definition chan (i : string) : Element :=
  ET.mkElement "channel" [("id", i)] None None [].

Definition prog (c start stop : string) : Element :=
  ET.mkElement "programme" [("channel", c); ("start", start); ("stop", stop)] None None [].

(** An element with no attribute at all. *)
Definition bare (t : string) : Element :=
  ET.mkElement t [] None None [].

Definition tv (l : list Element) : Element :=
  ET.mkElement "tv" [] None None l.

Definition ok (name : string) (l : list Element) : FetchResult :=
  mkResult name (Some (tv l)) None.

Definition failed (name error : string) : FetchResult :=
  mkResult name None (Some error).

Definition source_A : FetchResult := ok "A" [chan "1"; chan "2"].
Definition source_B : FetchResult := ok "B" [chan "2"; chan "3"].

Definition now : string := "20240101000000".

(** A serializer that writes the tag only. *)
Definition tag_only (e : Element) : string := ("<" ++ ET.tag e ++ " />")%string.

Definition no_files : FileSystem := mkFS ∅ ∅.

(** A standard output that takes every text. *)
Definition any_text (s : string) : Outcome unit := Returns tt.

(** A standard output with the ASCII encoding: a text with a byte above
    127 cannot be encoded. *)
Definition ascii_text (s : string) : Outcome unit :=
  if forallb (λ c, (nat_of_ascii c <? 128)%nat) (String.list_ascii_of_string s)
  then Returns tt
  else Raises (mkExc Exception "'ascii' codec can't encode character").

(** A size in bytes, without the conversion to megabytes. *)
Definition size_text (n : nat) : string := pretty n.

(** A world in which every address answers with the same bytes. *)
Definition quiet_world (root : Element) : World :=
  mkWorld (λ url hs, Returns (mkRequest url hs))
          (λ _ _, Returns (mkResponse (Returns []) (λ _, None) (Returns tt)))
          (λ b, Returns b)
          (λ _, Returns root)
          any_text size_text.

(** A world in which no address can be opened. *)
Definition dead_world : World :=
  mkWorld (λ url hs, Raises (mkExc Exception "unknown url type"))
          (λ _ _, Raises (mkExc URLError "unreachable"))
          (λ b, Returns b)
          (λ _, Raises (mkExc ParseError "syntax error"))
          any_text size_text.

(** The letter e with an acute accent, in UTF-8. *)
Definition e_acute : string := String "195"%char (String "169"%char EmptyString).

(** A world whose standard output has the ASCII encoding and in which a
    locator without a scheme is refused with a message that quotes it. *)
Definition ascii_world : World :=
  mkWorld (λ url hs, Raises (mkExc Exception ("unknown url type: '" ++ url ++ "'")))
          (λ _ _, Raises (mkExc URLError "unreachable"))
          (λ b, Returns b)
          (λ _, Raises (mkExc ParseError "syntax error"))
          ascii_text size_text.

End Sample.

(** ** The run: fetching, merging, writing *)

(** The order in which [as_completed] hands over the futures of the
    submitted sources. *)
Abbreviation Schedule := (list (string * string) → list (string * string)).

(** The loop [for future in as_completed(futures)], with
    [future.result()] giving what [fetch_epg] returned, or raising what
    it raised. *)
Fixpoint merge_completed (w : World) (st : MergeState)
    (completed : list (string * string)) : Outcome MergeState :=
  match completed with
  | [] => Returns st
  | (name, url) :: rest =>
      r <~ fetch_epg w name url ;;
      merge_completed w (process_result st r) rest
  end.

(** What a result leaves in [failed_sources]. *)
Definition failure_entry (r : FetchResult) : option (string * string) :=
  match fr_error r with
  | Some e => if truthy e then Some (fr_name r, e) else None
  | None => None
  end.

(** [len(sources) - len(failed_sources)], the number printed as
    "Sources succeeded". *)
Definition sources_succeeded (sources : list (string * string)) (st : MergeState) : Z :=
  (Z.of_nat (length sources) - Z.of_nat (length (failed_sources st)))%Z.

(** [for x in l: print(line(x))] *)
Fixpoint print_each {A : Type} (w : World) (line : A → string) (l : list A) : Outcome unit :=
  match l with
  | [] => Returns tt
  | x :: l' => _ <~ print w (line x) ;; print_each w line l'
  end.

(** ['=' * n] *)
Fixpoint rule (n : nat) : string :=
  match n with
  | O => EmptyString
  | S n' => String "="%char (rule n')
  end.

(** The statistics printed after the merge, and the failed sources when
    there are some. *)
Definition report (w : World) (sources : list (string * string))
    (st : MergeState) : Outcome unit :=
  _ <~ print w (newline ++ rule 50) ;;
  _ <~ print w "Combined EPG Statistics:" ;;
  _ <~ print w ("  Total channels: " ++ pretty (total_channels st)) ;;
  _ <~ print w ("  Total programmes: " ++ pretty (total_programmes st)) ;;
  _ <~ print w ("  Sources succeeded: " ++ pretty (sources_succeeded sources st)
                ++ "/" ++ pretty (length sources)) ;;
  match failed_sources st with
  | [] => Returns tt
  | _ :: _ =>
      _ <~ print w (newline ++ "Failed sources:") ;;
      print_each w (λ '(name, error), "  - " ++ name ++ ": " ++ error)%string
        (failed_sources st)
  end.

(** [combine_epg_files(sources, max_workers)] with the fetching in it.
    [ThreadPoolExecutor(max_workers)] raises [ValueError] when
    [max_workers] is not positive.  The Python function returns
    [combined]; the whole state is kept. *)
Definition combine_epg_run (w : World) (sched : Schedule) (now : string)
    (sources : list (string * string)) (max_workers : Z) : Outcome MergeState :=
  let st := init now in
  _ <~ print w (newline ++ "Fetching " ++ pretty (length sources) ++ " EPG sources...") ;;
  st <~ (if (max_workers <=? 0)%Z then
           Raises (mkExc Exception "max_workers must be greater than 0")
         else
           merge_completed w st (sched sources)) ;;
  _ <~ report w sources st ;;
  Returns st.

(** The source table. *)
Definition EPG_SOURCES : list (string * string) :=
  [ ("usa1", "https://epgshare01.online/epgshare01/epg_ripper_ALL_SOURCES1.xml");
    ("usa2", "https://github.com/matthuisman/i.mjh.nz/raw/master/SamsungTVPlus/us.xml");
    ("usa3", "https://github.com/matthuisman/i.mjh.nz/raw/master/PlutoTV/us.xml");
    ("usa4", "https://github.com/matthuisman/i.mjh.nz/raw/master/Plex/us.xml");
    ("usa5", EmptyString);
    ("uk1", "https://raw.githubusercontent.com/globetvapp/epg/main/Unitedkingdom/unitedkingdom1.xml");
    ("uk2", "https://raw.githubusercontent.com/globetvapp/epg/main/Unitedkingdom/unitedkingdom2.xml");
    ("uk3", "https://raw.githubusercontent.com/globetvapp/epg/main/Unitedkingdom/unitedkingdom3.xml");
    ("uk4", "https://raw.githubusercontent.com/globetvapp/epg/main/Unitedkingdom/unitedkingdom4.xml");
    ("uk5", "https://raw.githubusercontent.com/globetvapp/epg/main/Unitedkingdom/unitedkingdom5.xml");
    ("sports1", "https://raw.githubusercontent.com/globetvapp/epg/main/Sports/sports1.xml");
    ("sports2", "https://raw.githubusercontent.com/globetvapp/epg/main/Sports/sports2.xml");
    ("sports3", "https://raw.githubusercontent.com/globetvapp/epg/main/Sports/sports3.xml");
    ("canada1", "https://raw.githubusercontent.com/globetvapp/epg/main/Canada/canada1.xml");
    ("canada2", "https://raw.githubusercontent.com/globetvapp/epg/main/Canada/canada2.xml");
    ("ireland1", "https://raw.githubusercontent.com/globetvapp/epg/main/Ireland/ireland1.xml");
    ("australia1", "https://raw.githubusercontent.com/globetvapp/epg/main/Australia/australia1.xml");
    ("australia2", "https://raw.githubusercontent.com/globetvapp/epg/main/Australia/australia2.xml") ].

(** The parsed command line: [--output], [--workers], [--list]. *)
Record Args : Type := mkArgs {
  args_output : string;
  args_workers : Z;
  args_list : bool
}.

(** The order of [sorted] on the items of the table: by name, then by
    locator, each compared byte by byte. *)
Definition item_le (a b : string * string) : Prop :=
  match String.compare a.1 b.1 with
  | Lt => True
  | Eq => String.le a.2 b.2
  | Gt => False
  end.

#[local] Instance item_le_dec : RelDecision item_le.
Proof.
  intros a b. unfold item_le.
  destruct (String.compare a.1 b.1); apply _.
Defined.

Definition sorted (items : list (string * string)) : list (string * string) :=
  merge_sort item_le items.

(** [main()] after the arguments are parsed.  The result is the files
    and whether the call returned: an exception after [write_xml] has
    written leaves the file in place. *)
Definition main (w : World) (sched : Schedule) (tostring : Element → string)
    (now : string) (args : Args) (fs : FileSystem) : FileSystem * Outcome unit :=
  if args_list args then
    (fs,
     _ <~ print w "Available EPG sources:" ;;
     print_each w (λ '(name, url), "  " ++ name ++ ": " ++ url)%string
       (sorted EPG_SOURCES))
  else
    match (_ <~ print w "EPG Combiner - CouchStreaming" ;;
           _ <~ print w (rule 50) ;;
           combine_epg_run w sched now EPG_SOURCES (args_workers args)) with
    | Raises e => (fs, Raises e)
    | Returns st =>
        match write_xml w tostring (combined st) (args_output args) fs with
        | (fs', Raises e) => (fs', Raises e)
        | (fs', Returns _) =>
            (fs',
             _ <~ print w (newline ++ "Done! You can now use this combined EPG file in your app.") ;;
             print w ("URL (if hosted): https://raw.githubusercontent.com/YOUR_USERNAME/YOUR_REPO/main/"
                      ++ args_output args))
        end
    end.

(** * Properties *)

(** ** Elements *)

Lemma findall_append (e c : Element) (t : string) :
  ET.findall (ET.append e c) t
  = ET.findall e t ++ (if decide (ET.tag c = t) then [c] else []).
Proof.
  unfold ET.findall, ET.append; simpl.
  rewrite filter_app. reflexivity.
Qed.

Lemma findall_tag (e c : Element) (t : string) :
  c ∈ ET.findall e t → ET.tag c = t.
Proof. unfold ET.findall. rewrite list_elem_of_filter. tauto. Qed.

Lemma Forall_findall_tag (e : Element) (t : string) :
  Forall (λ c, ET.tag c = t) (ET.findall e t).
Proof. apply Forall_forall. intros c. apply findall_tag. Qed.

Lemma truthy_true (s : string) : truthy s = true ↔ s ≠ EmptyString.
Proof. destruct s; simpl; split; congruence. Qed.

Lemma get_present (e : Element) (key d v : string) :
  ET.dict_get (ET.attrib e) key = Some v → ET.get e key d = v.
Proof. unfold ET.get. intros ->. reflexivity. Qed.

Lemma get_missing (e : Element) (key d : string) :
  ET.dict_get (ET.attrib e) key = None → ET.get e key d = d.
Proof. unfold ET.get. intros ->. reflexivity. Qed.

(** ** The loop bodies *)

Lemma add_channel_accept (st : MergeState) (c : Element) :
  truthy (channel_id c) = true → channel_id c ∉ seen_channels st →
  add_channel st c
  = mkState (ET.append (combined st) c) ({[channel_id c]} ∪ seen_channels st)
      (seen_programmes st) (total_channels st + 1) (total_programmes st)
      (failed_sources st).
Proof.
  intros Ht Hs. unfold add_channel. rewrite Ht.
  rewrite bool_decide_eq_false_2 by assumption. reflexivity.
Qed.

Lemma add_channel_reject (st : MergeState) (c : Element) :
  truthy (channel_id c) = false ∨ channel_id c ∈ seen_channels st →
  add_channel st c = st.
Proof.
  intros [Ht | Hs]; unfold add_channel.
  - rewrite Ht. reflexivity.
  - rewrite (bool_decide_eq_true_2 _ Hs), andb_false_r. reflexivity.
Qed.

Lemma add_programme_accept (st : MergeState) (p : Element) :
  prog_key p ∉ seen_programmes st →
  add_programme st p
  = mkState (ET.append (combined st) p) (seen_channels st)
      ({[prog_key p]} ∪ seen_programmes st) (total_channels st)
      (total_programmes st + 1) (failed_sources st).
Proof.
  intros Hs. unfold add_programme.
  rewrite bool_decide_eq_false_2 by assumption. reflexivity.
Qed.

Lemma add_programme_reject (st : MergeState) (p : Element) :
  prog_key p ∈ seen_programmes st → add_programme st p = st.
Proof.
  intros Hs. unfold add_programme.
  rewrite (bool_decide_eq_true_2 _ Hs). reflexivity.
Qed.

(** Case analysis on the test of a loop body. *)
Ltac channel_cases st c :=
  destruct (truthy (channel_id c)) eqn:?Htruthy;
    [ destruct (decide (channel_id c ∈ seen_channels st)) as [?Hseen | ?Hfresh];
      [ rewrite (add_channel_reject st c) by (right; assumption)
      | rewrite (add_channel_accept st c) by assumption ]
    | rewrite (add_channel_reject st c) by (left; assumption) ].

Ltac programme_cases st p :=
  destruct (decide (prog_key p ∈ seen_programmes st)) as [?Hseen | ?Hfresh];
    [ rewrite (add_programme_reject st p) by assumption
    | rewrite (add_programme_accept st p) by assumption ].

(** ** The loop invariant *)

Lemma init_inv (now : string) : merge_inv (init now).
Proof.
  split; unfold accepted_channel_ids, accepted_programme_keys,
    accepted_channels, accepted_programmes, ET.findall; simpl;
    try constructor; reflexivity.
Qed.

Lemma add_channel_inv (st : MergeState) (c : Element) :
  ET.tag c = "channel" → merge_inv st → merge_inv (add_channel st c).
Proof.
  intros Htag [H1 H2 H3 H4 H5 H6 H7].
  channel_cases st c; try (split; assumption).
  split; unfold accepted_channel_ids, accepted_programme_keys,
    accepted_channels, accepted_programmes in *; simpl;
    rewrite findall_append, Htag; simpl.
  - rewrite fmap_app. apply NoDup_app. split; [assumption | split].
    + intros x Hx. simpl. rewrite list_elem_of_singleton. intros ->.
      apply Hfresh. rewrite H2. apply elem_of_list_to_set. assumption.
    + simpl. apply NoDup_singleton.
  - rewrite fmap_app, list_to_set_app_L, H2. simpl.
    rewrite (right_id_L ∅ (∪)). apply (comm_L (∪)).
  - rewrite length_app, H3. reflexivity.
  - apply Forall_app. split; [assumption | repeat constructor; assumption].
  - rewrite app_nil_r. assumption.
  - rewrite app_nil_r. assumption.
  - rewrite app_nil_r. assumption.
Qed.

Lemma add_programme_inv (st : MergeState) (p : Element) :
  ET.tag p = "programme" → merge_inv st → merge_inv (add_programme st p).
Proof.
  intros Htag [H1 H2 H3 H4 H5 H6 H7].
  programme_cases st p; try (split; assumption).
  split; unfold accepted_channel_ids, accepted_programme_keys,
    accepted_channels, accepted_programmes in *; simpl;
    rewrite findall_append, Htag; simpl.
  - rewrite app_nil_r. assumption.
  - rewrite app_nil_r. assumption.
  - rewrite app_nil_r. assumption.
  - rewrite app_nil_r. assumption.
  - rewrite fmap_app. apply NoDup_app. split; [assumption | split].
    + intros x Hx. simpl. rewrite list_elem_of_singleton. intros ->.
      apply Hfresh. rewrite H6. apply elem_of_list_to_set. assumption.
    + simpl. apply NoDup_singleton.
  - rewrite fmap_app, list_to_set_app_L, H6. simpl.
    rewrite (right_id_L ∅ (∪)). apply (comm_L (∪)).
  - rewrite length_app, H7. reflexivity.
Qed.

Lemma record_failure_inv (st : MergeState) (name error : string) :
  merge_inv st → merge_inv (record_failure st name error).
Proof. intros [H1 H2 H3 H4 H5 H6 H7]. split; assumption. Qed.

(** ** Loops and their intermediate states *)

Section Loops.
Context {A S : Type} (f : S → A → S).

Lemma scanl_last (l : list A) (st : S) :
  default st (last (scanl f st l)) = foldl f st l.
Proof.
  revert st. induction l as [| a l IH]; intros st; simpl; [reflexivity |].
  rewrite last_cons. specialize (IH (f st a)).
  destruct (last (scanl f (f st a) l)); simpl in *; assumption.
Qed.

(** A property kept by the loop body holds after every iteration. *)
Lemma scanl_Forall (P : A → Prop) (I : S → Prop) :
  (∀ s a, P a → I s → I (f s a)) →
  ∀ l st, Forall P l → I st → Forall I (scanl f st l).
Proof.
  intros Hstep l. induction l as [| a l IH]; intros st Hl Hst; simpl.
  - constructor.
  - inversion Hl; subst. constructor; [| apply IH]; auto.
Qed.

Lemma foldl_inv (P : A → Prop) (I : S → Prop) :
  (∀ s a, P a → I s → I (f s a)) →
  ∀ l st, Forall P l → I st → I (foldl f st l).
Proof.
  intros Hstep l. induction l as [| a l IH]; intros st Hl Hst; simpl.
  - assumption.
  - inversion Hl; subst. apply IH; auto.
Qed.

Lemma chain_scanl (R : relation S) :
  (∀ s a, R s (f s a)) → ∀ l st, chain R st (scanl f st l).
Proof.
  intros Hstep l. induction l as [| a l IH]; intros st; simpl; auto.
Qed.
End Loops.

Section Chains.
Context {S : Type} (R : relation S).

Lemma chain_app (a : S) (l1 l2 : list S) :
  chain R a l1 → chain R (default a (last l1)) l2 → chain R a (l1 ++ l2).
Proof.
  revert a. induction l1 as [| b l1 IH]; intros a H1 H2; simpl in *.
  - assumption.
  - destruct H1 as [Hab H1]. split; [assumption |].
    apply IH; [assumption |].
    rewrite last_cons in H2. destruct (last l1); assumption.
Qed.

Context `{!PreOrder R}.

Lemma chain_head (a : S) (l : list S) :
  chain R a l → Forall (R a) l.
Proof.
  revert a. induction l as [| b l IH]; intros a H; simpl in *.
  - constructor.
  - destruct H as [Hab H]. constructor; [assumption |].
    eapply Forall_impl; [apply IH, H |].
    intros c Hc. simpl in Hc. etransitivity; eassumption.
Qed.

(** In a chain for a preorder an earlier state is related to every
    later one. *)
Lemma chain_lookup (a : S) (l : list S) (i j : nat) (x y : S) :
  chain R a l → (a :: l) !! i = Some x → (a :: l) !! j = Some y → (i ≤ j)%nat →
  R x y.
Proof.
  revert a i j. induction l as [| b l IH]; intros a i j Hc Hi Hj Hle.
  - destruct i, j; simpl in *; try discriminate; try lia.
    inversion Hi; inversion Hj; subst. reflexivity.
  - destruct i as [| i].
    + simpl in Hi. inversion Hi; subst.
      destruct j as [| j]; simpl in Hj.
      * inversion Hj; subst. reflexivity.
      * pose proof (chain_head x (b :: l) Hc) as Hall.
        rewrite Forall_forall in Hall. apply Hall.
        apply list_elem_of_lookup. eauto.
    + destruct j as [| j]; [lia |].
      simpl in Hc. destruct Hc as [_ Hc].
      apply (IH b i j); [assumption .. | lia].
Qed.
End Chains.

#[local] Instance grows_preorder : PreOrder grows.
Proof.
  split.
  - intros st. unfold grows. reflexivity.
  - intros s1 s2 s3. unfold grows. intros H1 H2. etransitivity; eassumption.
Qed.

(** ** The run as a whole *)

Lemma merge_root_inv (st : MergeState) (root : Element) :
  merge_inv st → merge_inv (merge_root st root).
Proof.
  intros Hst. unfold merge_root.
  apply (foldl_inv add_programme (λ p, ET.tag p = "programme") merge_inv);
    [apply add_programme_inv | apply Forall_findall_tag |].
  apply (foldl_inv add_channel (λ c, ET.tag c = "channel") merge_inv);
    [apply add_channel_inv | apply Forall_findall_tag | assumption].
Qed.

Lemma process_result_inv (st : MergeState) (r : FetchResult) :
  merge_inv st → merge_inv (process_result st r).
Proof.
  intros Hst. unfold process_result.
  destruct (error_set (fr_error r)); [apply record_failure_inv, Hst |].
  destruct (fr_root r); [apply merge_root_inv, Hst | exact Hst].
Qed.

Lemma result_points_inv (st : MergeState) (r : FetchResult) :
  merge_inv st → Forall merge_inv (result_points st r).
Proof.
  intros Hst. unfold result_points.
  destruct (error_set (fr_error r)).
  { constructor; [apply record_failure_inv, Hst | constructor]. }
  destruct (fr_root r) as [root |]; [| constructor].
  apply Forall_app. split.
  - apply (scanl_Forall add_channel (λ c, ET.tag c = "channel") merge_inv);
      [apply add_channel_inv | apply Forall_findall_tag | assumption].
  - apply (scanl_Forall add_programme (λ p, ET.tag p = "programme") merge_inv);
      [apply add_programme_inv | apply Forall_findall_tag |].
    apply (foldl_inv add_channel (λ c, ET.tag c = "channel") merge_inv);
      [apply add_channel_inv | apply Forall_findall_tag | assumption].
Qed.

Lemma run_points_inv (completed : list FetchResult) (st : MergeState) :
  merge_inv st → Forall merge_inv (run_points st completed).
Proof.
  revert st. induction completed as [| r rs IH]; intros st Hst; simpl.
  - constructor.
  - apply Forall_app. split; [apply result_points_inv, Hst |].
    apply IH, process_result_inv, Hst.
Qed.

Lemma merge_points_inv (now : string) (completed : list FetchResult) :
  Forall merge_inv (merge_points now completed).
Proof.
  unfold merge_points. constructor; [apply init_inv |].
  apply run_points_inv, init_inv.
Qed.

Lemma combine_inv (now : string) (completed : list FetchResult) :
  merge_inv (combine_epg_files now completed).
Proof.
  unfold combine_epg_files.
  apply (foldl_inv process_result (λ _, True) merge_inv).
  - intros s r _. apply process_result_inv.
  - apply Forall_forall. intros; exact I.
  - apply init_inv.
Qed.

(** The last state of the points of a result is the state that
    [process_result] returns. *)
Lemma result_points_last (st : MergeState) (r : FetchResult) :
  default st (last (result_points st r)) = process_result st r.
Proof.
  unfold result_points, process_result.
  destruct (error_set (fr_error r)); [reflexivity |].
  destruct (fr_root r) as [root |]; [| reflexivity].
  unfold merge_root. rewrite last_app.
  rewrite <- (scanl_last add_programme).
  destruct (last (scanl add_programme _ _)); simpl; [reflexivity |].
  apply scanl_last.
Qed.

Lemma run_points_last (completed : list FetchResult) (st : MergeState) :
  default st (last (run_points st completed)) = foldl process_result st completed.
Proof.
  revert st. induction completed as [| r rs IH]; intros st; simpl; [reflexivity |].
  rewrite last_app. rewrite <- IH.
  destruct (last (run_points _ rs)); simpl; [reflexivity |].
  apply result_points_last.
Qed.

Lemma merge_points_last (now : string) (completed : list FetchResult) :
  last (merge_points now completed) = Some (combine_epg_files now completed).
Proof.
  unfold merge_points, combine_epg_files. rewrite last_cons.
  rewrite <- (run_points_last completed (init now)).
  destruct (last (run_points _ _)); reflexivity.
Qed.

(** The loop bodies only ever add at the end of [combined]. *)
Lemma add_channel_grows (st : MergeState) (c : Element) : grows st (add_channel st c).
Proof.
  unfold grows. channel_cases st c; try reflexivity.
  simpl. apply prefix_app_r. reflexivity.
Qed.

Lemma add_programme_grows (st : MergeState) (p : Element) : grows st (add_programme st p).
Proof.
  unfold grows. programme_cases st p; try reflexivity.
  simpl. apply prefix_app_r. reflexivity.
Qed.

Lemma result_points_chain (st : MergeState) (r : FetchResult) :
  chain grows st (result_points st r).
Proof.
  unfold result_points.
  destruct (error_set (fr_error r)).
  { simpl. split; [| exact I]. unfold grows. reflexivity. }
  destruct (fr_root r) as [root |]; [| exact I].
  apply chain_app.
  - apply chain_scanl, add_channel_grows.
  - rewrite scanl_last. apply chain_scanl, add_programme_grows.
Qed.

Lemma run_points_chain (completed : list FetchResult) (st : MergeState) :
  chain grows st (run_points st completed).
Proof.
  revert st. induction completed as [| r rs IH]; intros st; simpl; [exact I |].
  apply chain_app; [apply result_points_chain |].
  rewrite result_points_last. apply IH.
Qed.

(** ** The seen sets *)

Lemma add_channel_seen (st : MergeState) (c : Element) :
  seen_channels (add_channel st c)
  = seen_channels st
    ∪ list_to_set (filter (λ i, truthy i = true) [channel_id c]).
Proof.
  rewrite filter_cons, filter_nil.
  channel_cases st c; simpl; rewrite (right_id_L ∅ (∪)).
  - apply set_eq. intros x.
    rewrite elem_of_union, elem_of_singleton. split; [tauto |].
    intros [H | ->]; assumption.
  - apply (comm_L (∪)).
  - reflexivity.
Qed.

Lemma add_channel_seen_programmes (st : MergeState) (c : Element) :
  seen_programmes (add_channel st c) = seen_programmes st.
Proof. channel_cases st c; reflexivity. Qed.

Lemma add_programme_seen (st : MergeState) (p : Element) :
  seen_programmes (add_programme st p) = seen_programmes st ∪ {[prog_key p]}.
Proof.
  programme_cases st p; simpl.
  - apply set_eq. intros x.
    rewrite elem_of_union, elem_of_singleton. split; [tauto |].
    intros [H | ->]; assumption.
  - apply (comm_L (∪)).
Qed.

Lemma add_programme_seen_channels (st : MergeState) (p : Element) :
  seen_channels (add_programme st p) = seen_channels st.
Proof. programme_cases st p; reflexivity. Qed.

Lemma foldl_add_channel_seen (cs : list Element) (st : MergeState) :
  seen_channels (foldl add_channel st cs)
  = seen_channels st
    ∪ list_to_set (filter (λ i, truthy i = true) (channel_id <$> cs)).
Proof.
  revert st. induction cs as [| c cs IH]; intros st; simpl.
  - rewrite (right_id_L ∅ (∪)). reflexivity.
  - rewrite IH, add_channel_seen, <- (assoc_L (∪)), <- list_to_set_app_L.
    rewrite <- filter_app. reflexivity.
Qed.

Lemma foldl_add_channel_seen_programmes (cs : list Element) (st : MergeState) :
  seen_programmes (foldl add_channel st cs) = seen_programmes st.
Proof.
  revert st. induction cs as [| c cs IH]; intros st; simpl; [reflexivity |].
  rewrite IH. apply add_channel_seen_programmes.
Qed.

Lemma foldl_add_programme_seen (ps : list Element) (st : MergeState) :
  seen_programmes (foldl add_programme st ps)
  = seen_programmes st ∪ list_to_set (prog_key <$> ps).
Proof.
  revert st. induction ps as [| p ps IH]; intros st; simpl.
  - rewrite (right_id_L ∅ (∪)). reflexivity.
  - rewrite IH, add_programme_seen. rewrite (assoc_L (∪)). reflexivity.
Qed.

Lemma foldl_add_programme_seen_channels (ps : list Element) (st : MergeState) :
  seen_channels (foldl add_programme st ps) = seen_channels st.
Proof.
  revert st. induction ps as [| p ps IH]; intros st; simpl; [reflexivity |].
  rewrite IH. apply add_programme_seen_channels.
Qed.

Lemma merge_root_seen_channels (st : MergeState) (root : Element) :
  seen_channels (merge_root st root) = seen_channels st ∪ root_channel_ids root.
Proof.
  unfold merge_root, root_channel_ids.
  rewrite foldl_add_programme_seen_channels. apply foldl_add_channel_seen.
Qed.

Lemma merge_root_seen_programmes (st : MergeState) (root : Element) :
  seen_programmes (merge_root st root)
  = seen_programmes st ∪ root_programme_keys root.
Proof.
  unfold merge_root, root_programme_keys.
  rewrite foldl_add_programme_seen, foldl_add_channel_seen_programmes.
  reflexivity.
Qed.

Lemma process_result_seen_channels (st : MergeState) (r : FetchResult) :
  seen_channels (process_result st r) = seen_channels st ∪ result_channel_ids r.
Proof.
  unfold process_result, result_channel_ids, merged_root.
  destruct (error_set (fr_error r)); simpl.
  - rewrite (right_id_L ∅ (∪)). reflexivity.
  - destruct (fr_root r) as [root |]; simpl.
    + apply merge_root_seen_channels.
    + rewrite (right_id_L ∅ (∪)). reflexivity.
Qed.

Lemma process_result_seen_programmes (st : MergeState) (r : FetchResult) :
  seen_programmes (process_result st r)
  = seen_programmes st ∪ result_programme_keys r.
Proof.
  unfold process_result, result_programme_keys, merged_root.
  destruct (error_set (fr_error r)); simpl.
  - rewrite (right_id_L ∅ (∪)). reflexivity.
  - destruct (fr_root r) as [root |]; simpl.
    + apply merge_root_seen_programmes.
    + rewrite (right_id_L ∅ (∪)). reflexivity.
Qed.

Lemma foldl_process_result_seen_channels (l : list FetchResult) (st : MergeState) :
  seen_channels (foldl process_result st l)
  = seen_channels st ∪ ⋃ (result_channel_ids <$> l).
Proof.
  revert st. induction l as [| r l IH]; intros st; simpl.
  - rewrite (right_id_L ∅ (∪)). reflexivity.
  - rewrite IH, process_result_seen_channels, (assoc_L (∪)). reflexivity.
Qed.

Lemma foldl_process_result_seen_programmes (l : list FetchResult) (st : MergeState) :
  seen_programmes (foldl process_result st l)
  = seen_programmes st ∪ ⋃ (result_programme_keys <$> l).
Proof.
  revert st. induction l as [| r l IH]; intros st; simpl.
  - rewrite (right_id_L ∅ (∪)). reflexivity.
  - rewrite IH, process_result_seen_programmes, (assoc_L (∪)). reflexivity.
Qed.

(** The union of a list of sets does not depend on the order of the list. *)
Lemma union_list_perm `{Countable K} (l1 l2 : list (gset K)) :
  l1 ≡ₚ l2 → ⋃ l1 = ⋃ l2.
Proof.
  induction 1 as [| x l l' _ IH | x y l | l l' l'' _ IH1 _ IH2]; simpl.
  - reflexivity.
  - rewrite IH. reflexivity.
  - rewrite !(assoc_L (∪)), (comm_L (∪) y x). reflexivity.
  - congruence.
Qed.

(** ** Uniqueness, order and counters *)

(** C1: at every point during and after the merge, no two channel
    elements of the combined output have the same id and no two
    programme elements have the same (channel, start, stop) key; the
    last point is the state the merge ends in; and the children that
    [combined] holds at one point are still its first children, in the
    same order, at every later point, so that entities stand in the order
    in which they were accepted. *)
Theorem C1_unique_keys_in_acceptance_order
    (now : string) (completed : list FetchResult) :
  Forall (λ st, NoDup (channel_id <$> accepted_channels st)
                ∧ NoDup (prog_key <$> accepted_programmes st))
    (merge_points now completed)
  ∧ last (merge_points now completed) = Some (combine_epg_files now completed)
  ∧ ∀ (i j : nat) (si sj : MergeState),
      merge_points now completed !! i = Some si →
      merge_points now completed !! j = Some sj →
      (i ≤ j)%nat →
      ET.children (combined si) `prefix_of` ET.children (combined sj).
Proof.
  split; [| split].
  - eapply Forall_impl; [apply merge_points_inv |].
    intros st [H1 _ _ _ H5 _ _]. split; assumption.
  - apply merge_points_last.
  - intros i j si sj Hi Hj Hle. unfold merge_points in Hi, Hj.
    exact (chain_lookup grows _ _ i j si sj
             (run_points_chain completed (init now)) Hi Hj Hle).
Qed.

Lemma C1_witness :
  ET.children (combined (add_channel (init Sample.now) (Sample.chan "1")))
  `prefix_of`
  ET.children
    (combined (combine_epg_files Sample.now [Sample.source_A; Sample.source_B])).
Proof.
  apply (proj2 (proj2 (C1_unique_keys_in_acceptance_order
                         Sample.now [Sample.source_A; Sample.source_B])) 1 4).
  - vm_compute. reflexivity.
  - vm_compute. reflexivity.
  - lia.
Defined.

(** C9: at every point of the merge, [total_channels] is the number of
    channel elements in the combined tree and the size of
    [seen_channels], and [total_programmes] is the number of programme
    elements in the combined tree and the size of [seen_programmes]. *)
Theorem C9_counters_agree (now : string) (completed : list FetchResult) :
  Forall (λ st, total_channels st = length (accepted_channels st)
                ∧ total_channels st = size (seen_channels st)
                ∧ total_programmes st = length (accepted_programmes st)
                ∧ total_programmes st = size (seen_programmes st))
    (merge_points now completed).
Proof.
  eapply Forall_impl; [apply merge_points_inv |].
  intros st [H1 H2 H3 _ H5 H6 H7]. repeat split.
  - assumption.
  - rewrite H2, H3. unfold accepted_channel_ids.
    rewrite size_list_to_set by assumption. rewrite length_fmap. reflexivity.
  - assumption.
  - rewrite H6, H7. unfold accepted_programme_keys.
    rewrite size_list_to_set by assumption. rewrite length_fmap. reflexivity.
Qed.

(** ** What the loop bodies accept *)

Lemma app_singleton_neq {A : Type} (l : list A) (x : A) : l ≠ l ++ [x].
Proof.
  intros H. apply (f_equal length) in H. rewrite length_app in H.
  simpl in H. lia.
Qed.

Lemma channel_id_truthy (c : Element) :
  truthy (channel_id c) = true
  ↔ ∃ v, ET.dict_get (ET.attrib c) "id" = Some v ∧ v ≠ EmptyString.
Proof.
  unfold channel_id, ET.get. split.
  - destruct (ET.dict_get (ET.attrib c) "id") as [v |]; simpl; [| discriminate].
    intros Hv. exists v. split; [reflexivity |]. apply truthy_true, Hv.
  - intros (v & -> & Hv). apply truthy_true, Hv.
Qed.

Lemma add_channel_appended (st : MergeState) (c : Element) :
  ET.children (combined (add_channel st c)) = ET.children (combined st) ++ [c]
  ↔ truthy (channel_id c) = true ∧ channel_id c ∉ seen_channels st.
Proof.
  channel_cases st c; simpl; split; try tauto; try (intros [? ?]; congruence);
    intros H; exfalso; exact (app_singleton_neq _ _ H).
Qed.

Lemma add_programme_appended (st : MergeState) (p : Element) :
  ET.children (combined (add_programme st p)) = ET.children (combined st) ++ [p]
  ↔ prog_key p ∉ seen_programmes st.
Proof.
  programme_cases st p; simpl; split; try tauto.
  intros H; exfalso; exact (app_singleton_neq _ _ H).
Qed.

(** C2: while a successful result is processed, each channel of its
    root goes through [add_channel] in document order, and
    [add_channel] appends the channel to the combined output exactly
    when its id attribute is present, is not the empty string and is not
    in [seen_channels]; otherwise the state is left as it is.  Hence, at
    every point of every merge, each channel element of the combined
    output has a non-empty id attribute. *)
Theorem C2_channel_appended_iff :
  (∀ (st : MergeState) (channel : Element),
     (ET.children (combined (add_channel st channel))
        = ET.children (combined st) ++ [channel]
      ↔ ∃ v, ET.dict_get (ET.attrib channel) "id" = Some v
             ∧ v ≠ EmptyString ∧ v ∉ seen_channels st)
     ∧ (ET.children (combined (add_channel st channel))
          = ET.children (combined st) ++ [channel]
        ∨ add_channel st channel = st))
  ∧ (∀ (st : MergeState) (r : FetchResult) (root : Element),
       error_set (fr_error r) = false → fr_root r = Some root →
       process_result st r
       = foldl add_programme
           (foldl add_channel st (ET.findall root "channel"))
           (ET.findall root "programme"))
  ∧ (∀ (now : string) (completed : list FetchResult),
       Forall (λ st,
                 Forall (λ c, ∃ v, ET.dict_get (ET.attrib c) "id" = Some v
                                   ∧ v ≠ EmptyString)
                   (accepted_channels st))
         (merge_points now completed)).
Proof.
  split; [| split].
  - intros st channel. split.
    + rewrite add_channel_appended, channel_id_truthy. split.
      * intros [(v & Hget & Hv) Hfresh]. exists v.
        pose proof (get_present channel "id" EmptyString v Hget) as Hid.
        fold (channel_id channel) in Hid. rewrite Hid in Hfresh.
        repeat split; assumption.
      * intros (v & Hget & Hv & Hfresh).
        pose proof (get_present channel "id" EmptyString v Hget) as Hid.
        fold (channel_id channel) in Hid. rewrite Hid.
        split; [exists v; split; assumption | assumption].
    + channel_cases st channel; simpl; auto.
  - intros st r root Herr Hroot. unfold process_result.
    rewrite Herr, Hroot. reflexivity.
  - intros now completed.
    eapply Forall_impl; [apply merge_points_inv |].
    intros st [_ _ _ H4 _ _ _].
    eapply Forall_impl; [exact H4 |].
    intros c Hc. simpl in Hc. apply channel_id_truthy, Hc.
Qed.

Lemma C2_witness :
  process_result (init Sample.now) Sample.source_A
  = foldl add_programme
      (foldl add_channel (init Sample.now) [Sample.chan "1"; Sample.chan "2"])
      [].
Proof.
  apply (proj1 (proj2 C2_channel_appended_iff)
           (init Sample.now) Sample.source_A
           (Sample.tv [Sample.chan "1"; Sample.chan "2"])).
  - reflexivity.
  - reflexivity.
Defined.

Lemma prog_key_missing (p : Element) :
  ET.dict_get (ET.attrib p) "channel" = None →
  ET.dict_get (ET.attrib p) "start" = None →
  ET.dict_get (ET.attrib p) "stop" = None →
  prog_key p = (EmptyString, EmptyString, EmptyString).
Proof.
  intros H1 H2 H3. unfold prog_key.
  rewrite !get_missing by assumption. reflexivity.
Qed.

(** C3: while a successful result is processed, each programme of its
    root goes through [add_programme] in document order, after the
    channels of that root.  [add_programme] appends a programme to the
    combined output exactly when its key is not in [seen_programmes],
    and then marks the key as seen; otherwise it leaves the state as it
    is.  The key is made of the channel, start and stop attributes, each
    replaced by the empty string when missing.  So two programmes that
    lack these three attributes have the key of three empty strings,
    and once the first has been processed the second one is dropped,
    wherever it comes later: after more programmes of the same root,
    after more results, and after the channels and some programmes of a
    later root. *)
Theorem C3_programme_appended_iff :
  (∀ (st : MergeState) (programme : Element),
     (ET.children (combined (add_programme st programme))
        = ET.children (combined st) ++ [programme]
      ↔ prog_key programme ∉ seen_programmes st)
     ∧ (ET.children (combined (add_programme st programme))
          = ET.children (combined st) ++ [programme]
        ∨ add_programme st programme = st)
     ∧ seen_programmes (add_programme st programme)
       = {[prog_key programme]} ∪ seen_programmes st)
  ∧ (∀ (st : MergeState) (r : FetchResult) (root : Element),
       error_set (fr_error r) = false → fr_root r = Some root →
       process_result st r
       = foldl add_programme
           (foldl add_channel st (ET.findall root "channel"))
           (ET.findall root "programme"))
  ∧ (∀ programme : Element,
       prog_key programme
       = (default EmptyString (ET.dict_get (ET.attrib programme) "channel"),
          default EmptyString (ET.dict_get (ET.attrib programme) "start"),
          default EmptyString (ET.dict_get (ET.attrib programme) "stop")))
  ∧ (∀ (st : MergeState) (p1 p2 : Element) (ps : list Element)
       (rs : list FetchResult) (cs ps' : list Element),
       ET.dict_get (ET.attrib p1) "channel" = None →
       ET.dict_get (ET.attrib p1) "start" = None →
       ET.dict_get (ET.attrib p1) "stop" = None →
       ET.dict_get (ET.attrib p2) "channel" = None →
       ET.dict_get (ET.attrib p2) "start" = None →
       ET.dict_get (ET.attrib p2) "stop" = None →
       let later :=
         foldl add_programme
           (foldl add_channel
              (foldl process_result
                 (foldl add_programme (add_programme st p1) ps) rs) cs) ps' in
       prog_key p1 = (EmptyString, EmptyString, EmptyString)
       ∧ prog_key p2 = (EmptyString, EmptyString, EmptyString)
       ∧ add_programme later p2 = later).
Proof.
  split; [| split; [| split]].
  - intros st programme. split; [apply add_programme_appended |]. split.
    + programme_cases st programme; simpl; auto.
    + rewrite add_programme_seen. apply (comm_L (∪)).
  - intros st r root Herr Hroot. unfold process_result.
    rewrite Herr, Hroot. reflexivity.
  - intros programme. unfold prog_key, ET.get.
    destruct (ET.dict_get _ "channel"), (ET.dict_get _ "start"),
      (ET.dict_get _ "stop"); reflexivity.
  - intros st p1 p2 ps rs cs ps' Hc1 Hs1 Ht1 Hc2 Hs2 Ht2 later.
    pose proof (prog_key_missing p1 Hc1 Hs1 Ht1) as Hk1.
    pose proof (prog_key_missing p2 Hc2 Hs2 Ht2) as Hk2.
    split; [exact Hk1 | split; [exact Hk2 |]].
    apply add_programme_reject. subst later.
    rewrite foldl_add_programme_seen, foldl_add_channel_seen_programmes,
      foldl_process_result_seen_programmes, foldl_add_programme_seen,
      add_programme_seen.
    rewrite Hk1, Hk2, !elem_of_union, elem_of_singleton. tauto.
Qed.

Lemma C3_witness :
  let p1 := ET.mkElement "programme" [("lang", "en")] (Some "first") None [] in
  let p2 := ET.mkElement "programme" [("title", "News")] None None [] in
  let later :=
    foldl add_programme
      (foldl add_channel
         (foldl process_result
            (foldl add_programme (add_programme (init Sample.now) p1)
               [Sample.prog "X" "20240101" "20240102"])
            [Sample.source_A])
         [Sample.chan "9"])
      [] in
  process_result (init Sample.now)
    (Sample.ok "P" [Sample.chan "1"; p1; p2])
  = foldl add_programme (foldl add_channel (init Sample.now) [Sample.chan "1"])
      [p1; p2]
  ∧ prog_key p1 = (EmptyString, EmptyString, EmptyString)
  ∧ prog_key p2 = (EmptyString, EmptyString, EmptyString)
  ∧ add_programme later p2 = later.
Proof.
  intros p1 p2 later. split.
  - apply (proj1 (proj2 C3_programme_appended_iff) (init Sample.now)
             (Sample.ok "P" [Sample.chan "1"; p1; p2])
             (Sample.tv [Sample.chan "1"; p1; p2]));
      reflexivity.
  - apply (proj2 (proj2 (proj2 C3_programme_appended_iff))
             (init Sample.now) p1 p2
             [Sample.prog "X" "20240101" "20240102"] [Sample.source_A]
             [Sample.chan "9"] []);
      reflexivity.
Defined.

(** ** Order of the results *)

Lemma combine_seen_channels (now : string) (completed : list FetchResult) :
  accepted_channel_ids (combine_epg_files now completed)
  = ⋃ (result_channel_ids <$> completed).
Proof.
  rewrite <- (inv_channel_seen _ (combine_inv now completed)).
  unfold combine_epg_files. rewrite foldl_process_result_seen_channels.
  simpl. apply (left_id_L ∅ (∪)).
Qed.

Lemma combine_seen_programmes (now : string) (completed : list FetchResult) :
  accepted_programme_keys (combine_epg_files now completed)
  = ⋃ (result_programme_keys <$> completed).
Proof.
  rewrite <- (inv_programme_seen _ (combine_inv now completed)).
  unfold combine_epg_files. rewrite foldl_process_result_seen_programmes.
  simpl. apply (left_id_L ∅ (∪)).
Qed.

(** C4: when the same results are processed in another order, the set
    of ids of the accepted channels and the set of keys of the accepted
    programmes are the same, and so are the two seen sets.  In
    particular two merged roots whose channel ids are 1, 2 and 2, 3 give
    the id set 1, 2, 3 in either order. *)
Theorem C4_final_sets_order_independent :
  (∀ (now : string) (l1 l2 : list FetchResult),
     l1 ≡ₚ l2 →
     accepted_channel_ids (combine_epg_files now l1)
       = accepted_channel_ids (combine_epg_files now l2)
     ∧ accepted_programme_keys (combine_epg_files now l1)
       = accepted_programme_keys (combine_epg_files now l2)
     ∧ seen_channels (combine_epg_files now l1)
       = seen_channels (combine_epg_files now l2)
     ∧ seen_programmes (combine_epg_files now l1)
       = seen_programmes (combine_epg_files now l2))
  ∧ (∀ (now : string) (a b : FetchResult) (root_a root_b : Element),
       merged_root a = Some root_a → merged_root b = Some root_b →
       channel_id <$> ET.findall root_a "channel" = ["1"; "2"] →
       channel_id <$> ET.findall root_b "channel" = ["2"; "3"] →
       accepted_channel_ids (combine_epg_files now [a; b]) = {["1"; "2"; "3"]}
       ∧ accepted_channel_ids (combine_epg_files now [b; a]) = {["1"; "2"; "3"]}
       ∧ total_channels (combine_epg_files now [a; b]) = 3
       ∧ total_channels (combine_epg_files now [b; a]) = 3).
Proof.
  split.
  - intros now l1 l2 Hperm.
    assert (Hc : accepted_channel_ids (combine_epg_files now l1)
                 = accepted_channel_ids (combine_epg_files now l2)).
    { rewrite !combine_seen_channels. apply union_list_perm.
      apply fmap_Permutation, Hperm. }
    assert (Hp : accepted_programme_keys (combine_epg_files now l1)
                 = accepted_programme_keys (combine_epg_files now l2)).
    { rewrite !combine_seen_programmes. apply union_list_perm.
      apply fmap_Permutation, Hperm. }
    repeat split; try assumption.
    + rewrite !(inv_channel_seen _ (combine_inv now _)). exact Hc.
    + rewrite !(inv_programme_seen _ (combine_inv now _)). exact Hp.
  - intros now a b root_a root_b Ha Hb Hida Hidb.
    assert (Hab : accepted_channel_ids (combine_epg_files now [a; b])
                  = {["1"; "2"; "3"]}).
    { rewrite combine_seen_channels. simpl.
      unfold result_channel_ids. rewrite Ha, Hb. simpl.
      unfold root_channel_ids. rewrite Hida, Hidb.
      vm_compute. reflexivity. }
    assert (Hba : accepted_channel_ids (combine_epg_files now [b; a])
                  = {["1"; "2"; "3"]}).
    { rewrite combine_seen_channels. simpl.
      unfold result_channel_ids. rewrite Ha, Hb. simpl.
      unfold root_channel_ids. rewrite Hida, Hidb.
      vm_compute. reflexivity. }
    assert (Hsize : size ({["1"; "2"; "3"]} : gset string) = 3)
      by (vm_compute; reflexivity).
    repeat split; try assumption.
    + pose proof (combine_inv now [a; b]) as [H1 H2 H3 _ _ _ _].
      rewrite H3, <- (length_fmap channel_id).
      rewrite <- (size_list_to_set (C := gset string)) by assumption.
      fold (accepted_channel_ids (combine_epg_files now [a; b])).
      rewrite Hab. exact Hsize.
    + pose proof (combine_inv now [b; a]) as [H1 H2 H3 _ _ _ _].
      rewrite H3, <- (length_fmap channel_id).
      rewrite <- (size_list_to_set (C := gset string)) by assumption.
      fold (accepted_channel_ids (combine_epg_files now [b; a])).
      rewrite Hba. exact Hsize.
Qed.

Lemma C4_witness :
  accepted_channel_ids
    (combine_epg_files Sample.now [Sample.source_A; Sample.source_B])
  = accepted_channel_ids
      (combine_epg_files Sample.now [Sample.source_B; Sample.source_A])
  ∧ accepted_channel_ids
      (combine_epg_files Sample.now [Sample.source_B; Sample.source_A])
    = {["1"; "2"; "3"]}.
Proof.
  split.
  - apply (proj1 C4_final_sets_order_independent Sample.now
             [Sample.source_A; Sample.source_B]
             [Sample.source_B; Sample.source_A]).
    apply perm_swap.
  - apply (proj2 C4_final_sets_order_independent Sample.now
             Sample.source_A Sample.source_B
             (Sample.tv [Sample.chan "1"; Sample.chan "2"])
             (Sample.tv [Sample.chan "2"; Sample.chan "3"]));
      reflexivity.
Defined.

(** ** Merging a root again *)

Section Fixed.
Context {A S : Type} (f : S → A → S).

(** A loop whose body leaves the state as it is at each element leaves
    it as it is after every iteration. *)
Lemma scanl_fixed (l : list A) (st : S) :
  Forall (λ a, f st a = st) l →
  foldl f st l = st ∧ Forall (λ s, s = st) (scanl f st l).
Proof.
  induction l as [| a l IH]; intros Hl; simpl.
  - split; [reflexivity | constructor].
  - inversion Hl as [| ? ? Ha Hl']; subst. rewrite Ha.
    destruct (IH Hl') as [IH1 IH2].
    split; [assumption | constructor; [reflexivity | assumption]].
Qed.
End Fixed.

Lemma merge_root_channels_fixed (st : MergeState) (root : Element) :
  Forall (λ c, add_channel (merge_root st root) c = merge_root st root)
    (ET.findall root "channel").
Proof.
  apply Forall_forall. intros c Hc. apply add_channel_reject.
  destruct (truthy (channel_id c)) eqn:Ht; [right | left; reflexivity].
  rewrite merge_root_seen_channels. apply elem_of_union_r.
  unfold root_channel_ids. apply elem_of_list_to_set, list_elem_of_filter.
  split; [assumption |]. apply list_elem_of_fmap. exists c. split; [reflexivity | assumption].
Qed.

Lemma merge_root_programmes_fixed (st : MergeState) (root : Element) :
  Forall (λ p, add_programme (merge_root st root) p = merge_root st root)
    (ET.findall root "programme").
Proof.
  apply Forall_forall. intros p Hp. apply add_programme_reject.
  rewrite merge_root_seen_programmes. apply elem_of_union_r.
  unfold root_programme_keys. apply elem_of_list_to_set, list_elem_of_fmap.
  exists p. split; [reflexivity | assumption].
Qed.

(** C5: processing the same fetched root a second time leaves the merge
    state as it was after the first time: the same combined children,
    the same seen sets and the same counters.  Every iteration of the
    second pass leaves the state as it is, so the second pass appends
    nothing. *)
Theorem C5_second_merge_adds_nothing
    (st : MergeState) (name : string) (root : Element) :
  let r := mkResult name (Some root) None in
  let once := process_result st r in
  process_result once r = once
  ∧ Forall (λ s, s = once) (result_points once r)
  ∧ accepted_channels (process_result once r) = accepted_channels once
  ∧ accepted_programmes (process_result once r) = accepted_programmes once.
Proof.
  intros r once.
  assert (Honce : once = merge_root st root) by reflexivity.
  destruct (scanl_fixed add_channel _ _ (merge_root_channels_fixed st root))
    as [Hc1 Hc2].
  destruct (scanl_fixed add_programme _ _ (merge_root_programmes_fixed st root))
    as [Hp1 Hp2].
  assert (Htwice : process_result once r = once).
  { rewrite Honce. unfold r, process_result; simpl.
    unfold merge_root at 1. rewrite Hc1. exact Hp1. }
  split; [exact Htwice | split].
  - rewrite Honce. unfold r, result_points; simpl.
    apply Forall_app. split; [exact Hc2 |]. rewrite Hc1. exact Hp2.
  - rewrite Htwice. split; reflexivity.
Qed.

(** ** Failed results *)

Lemma add_channel_record_failure (st : MergeState) (name e : string) (c : Element) :
  add_channel (record_failure st name e) c
  = record_failure (add_channel st c) name e.
Proof.
  unfold add_channel. simpl.
  destruct (truthy (channel_id c) && negb (bool_decide (channel_id c ∈ seen_channels st)));
    reflexivity.
Qed.

Lemma add_programme_record_failure (st : MergeState) (name e : string) (p : Element) :
  add_programme (record_failure st name e) p
  = record_failure (add_programme st p) name e.
Proof.
  unfold add_programme. simpl.
  destruct (negb (bool_decide (prog_key p ∈ seen_programmes st))); reflexivity.
Qed.

Lemma merge_root_record_failure (st : MergeState) (name e : string) (root : Element) :
  merge_root (record_failure st name e) root
  = record_failure (merge_root st root) name e.
Proof.
  unfold merge_root.
  generalize (ET.findall root "programme"). generalize (ET.findall root "channel").
  intros cs ps.
  assert (Hcs : foldl add_channel (record_failure st name e) cs
                = record_failure (foldl add_channel st cs) name e).
  { revert st. induction cs as [| c cs IH]; intros st; simpl; [reflexivity |].
    rewrite add_channel_record_failure. apply IH. }
  rewrite Hcs. generalize (foldl add_channel st cs). clear Hcs. intros st'.
  revert st'. induction ps as [| p ps IH]; intros st'; simpl; [reflexivity |].
  rewrite add_programme_record_failure. apply IH.
Qed.

Lemma merge_root_failed_sources (st : MergeState) (root : Element) :
  failed_sources (merge_root st root) = failed_sources st.
Proof.
  unfold merge_root.
  transitivity (failed_sources (foldl add_channel st (ET.findall root "channel"))).
  - apply (foldl_inv add_programme (λ _, True)
             (λ s, failed_sources s
                   = failed_sources (foldl add_channel st (ET.findall root "channel")))).
    + intros s p _ Hs. rewrite <- Hs. programme_cases s p; reflexivity.
    + apply Forall_forall. intros; exact I.
    + reflexivity.
  - apply (foldl_inv add_channel (λ _, True)
             (λ s, failed_sources s = failed_sources st)).
    + intros s c _ Hs. rewrite <- Hs. channel_cases s c; reflexivity.
    + apply Forall_forall. intros; exact I.
    + reflexivity.
Qed.

Lemma error_set_nonempty (r : FetchResult) (e : string) :
  fr_error r = Some e → e ≠ EmptyString → error_set (fr_error r) = true.
Proof. intros -> He. simpl. apply truthy_true, He. Qed.

(** X20: a result whose error message is not the empty string is
    recorded as (identifier, error) at the end of the failure list and
    changes nothing else; a result without a root never changes the
    combined document, whatever its error; hence when source A fails
    with a non-empty message and source B is merged, in either order,
    the combined document is the one obtained from B alone and the
    failure list holds A and nothing else. *)
Theorem failure_with_message_recorded :
  (∀ (st : MergeState) (r : FetchResult) (e : string),
     fr_error r = Some e → e ≠ EmptyString →
     process_result st r = record_failure st (fr_name r) e
     ∧ failed_sources (process_result st r)
       = failed_sources st ++ [(fr_name r, e)]
     ∧ combined (process_result st r) = combined st)
  ∧ (∀ (st : MergeState) (r : FetchResult),
       fr_root r = None → combined (process_result st r) = combined st)
  ∧ (∀ (now : string) (a b : FetchResult) (e : string) (root : Element),
       fr_error a = Some e → e ≠ EmptyString →
       error_set (fr_error b) = false → fr_root b = Some root →
       combined (combine_epg_files now [a; b]) = combined (combine_epg_files now [b])
       ∧ combined (combine_epg_files now [b; a]) = combined (combine_epg_files now [b])
       ∧ failed_sources (combine_epg_files now [a; b]) = [(fr_name a, e)]
       ∧ failed_sources (combine_epg_files now [b; a]) = [(fr_name a, e)]).
Proof.
  split; [| split].
  - intros st r e He Hne.
    assert (Hp : process_result st r = record_failure st (fr_name r) e).
    { unfold process_result. rewrite (error_set_nonempty r e He Hne), He.
      reflexivity. }
    rewrite Hp. repeat split.
  - intros st r Hroot. unfold process_result. rewrite Hroot.
    destruct (error_set (fr_error r)); reflexivity.
  - intros now a b e root He Hne Hb Hroot.
    assert (Ha : ∀ st, process_result st a = record_failure st (fr_name a) e).
    { intros st. unfold process_result.
      rewrite (error_set_nonempty a e He Hne), He. reflexivity. }
    assert (Hb' : ∀ st, process_result st b = merge_root st root).
    { intros st. unfold process_result. rewrite Hb, Hroot. reflexivity. }
    unfold combine_epg_files; simpl. rewrite !Ha, !Hb'.
    rewrite merge_root_record_failure. simpl.
    rewrite merge_root_failed_sources. simpl. repeat split.
Qed.

Lemma failure_with_message_recorded_witness :
  combined (combine_epg_files Sample.now
              [Sample.failed "A" "HTTP Error 404: Not Found"; Sample.source_B])
  = combined (combine_epg_files Sample.now [Sample.source_B])
  ∧ failed_sources
      (combine_epg_files Sample.now
         [Sample.source_B; Sample.failed "A" "HTTP Error 404: Not Found"])
    = [("A", "HTTP Error 404: Not Found")].
Proof.
  destruct (proj2 (proj2 failure_with_message_recorded) Sample.now
              (Sample.failed "A" "HTTP Error 404: Not Found") Sample.source_B
              "HTTP Error 404: Not Found"
              (Sample.tv [Sample.chan "2"; Sample.chan "3"]))
    as (H1 & H2 & H3 & H4).
  - reflexivity.
  - discriminate.
  - reflexivity.
  - reflexivity.
  - split; [exact H1 | exact H4].
Defined.

(** C6: the code at a failing input.  A result that carries the empty
    string as its error message, as [fetch_epg] returns it for an
    exception whose [str] is empty, has no root and is a failed fetch;
    the merger contributes nothing for it, as the claim says, but it
    does not put (identifier, error) in the failure list, which stays
    empty when source A fails in this way and source B succeeds, and the
    source is counted among the succeeded ones. *)
Theorem C6_empty_message_not_recorded :
  fr_error (Sample.failed "A" EmptyString) = Some EmptyString
  ∧ fr_root (Sample.failed "A" EmptyString) = None
  ∧ failed_sources
      (combine_epg_files Sample.now
         [Sample.failed "A" EmptyString; Sample.source_B]) = []
  ∧ combined
      (combine_epg_files Sample.now
         [Sample.failed "A" EmptyString; Sample.source_B])
    = combined (combine_epg_files Sample.now [Sample.source_B])
  ∧ sources_succeeded [("A", "https://a.example/epg.xml"); ("B", "https://b.example/epg.xml")]
      (combine_epg_files Sample.now
         [Sample.failed "A" EmptyString; Sample.source_B]) = 2%Z
  ∧ ¬ (∀ (st : MergeState) (r : FetchResult) (e : string),
         fr_error r = Some e →
         (fr_name r, e) ∈ failed_sources (process_result st r)).
Proof.
  repeat (split; [reflexivity |]).
  intros H.
  specialize (H (init Sample.now) (Sample.failed "A" EmptyString) EmptyString eq_refl).
  vm_compute in H. inversion H.
Qed.

(** ** The fetcher *)

Example endswith_gz :
  endswith "https://example.org/guide.xml.gz" ".gz" = true
  ∧ endswith "https://example.org/guide.xml" ".gz" = false
  ∧ endswith "gz" ".gz" = false.
Proof. repeat split. Qed.

Example issubclass_HTTPError :
  issubclass HTTPError URLError = true
  ∧ issubclass URLError HTTPError = false
  ∧ issubclass ParseError Exception = true.
Proof. repeat split. Qed.

Example fetch_epg_quiet (root : Element) :
  fetch_epg (Sample.quiet_world root) "uk1" "https://example.org/uk1.xml"
  = Returns (mkResult "uk1" (Some root) None).
Proof. reflexivity. Qed.

Example fetch_epg_dead :
  fetch_epg Sample.dead_world "uk1" "https://example.org/uk1.xml"
  = Returns (mkResult "uk1" None (Some "unknown url type")).
Proof. reflexivity. Qed.

(** A progress print of the [try] block that cannot be written is
    caught like any other exception: the fetch is then reported as
    failed although nothing was fetched. *)
Example fetch_epg_name_not_printable :
  fetch_epg Sample.ascii_world Sample.e_acute "https://example.org/uk1.xml"
  = Returns (mkResult Sample.e_acute None
               (Some "'ascii' codec can't encode character")).
Proof. reflexivity. Qed.

(** When the [try] block returns, it returns the name, a root and no
    error. *)
Lemma fetch_try_returns (w : World) (name url : string) (r : FetchResult) :
  fetch_try w name url = Returns r →
  ∃ root, r = mkResult name (Some root) None.
Proof.
  unfold fetch_try, with_response, bind.
  destruct (stdout_write w _) as [[] |]; [| discriminate].
  destruct (new_Request w url fetch_headers) as [req |]; [| discriminate].
  destruct (urlopen w req 60) as [response |]; [| discriminate].
  destruct (resp_read response) as [data |].
  - destruct (if endswith url ".gz"
                 || bool_decide (resp_header response "Content-Encoding" = Some "gzip")
              then gzip_decompress w data else Returns data) as [data' |].
    + destruct (fromstring w data') as [root |].
      * destruct (print w _) as [[] |].
        -- destruct (resp_close response); [| discriminate].
           intros [= <-]. exists root. reflexivity.
        -- destruct (resp_close response); discriminate.
      * destruct (resp_close response); discriminate.
    + destruct (resp_close response); discriminate.
  - destruct (resp_close response); discriminate.
Qed.

(** After an exception of the [try] block, [fetch_epg] returns nothing
    but the error result with the message of that exception. *)
Lemma fetch_epg_after_raise (w : World) (name url : string) (e : Exc)
    (r : FetchResult) :
  fetch_try w name url = Raises e → fetch_epg w name url = Returns r →
  r = mkResult name None (Some (exc_str e)).
Proof.
  intros Htry. unfold fetch_epg, try_except. rewrite Htry.
  destruct e as [[] msg]; simpl; unfold bind;
    destruct (print w _) as [[] |]; intros [= <-]; reflexivity.
Qed.

(** With a standard output that takes every text, the three [except]
    clauses turn every exception of the [try] block into a result. *)
Lemma fetch_epg_of_try (w : World) (name url : string) :
  (∀ s, stdout_write w s = Returns tt) →
  fetch_epg w name url
  = match fetch_try w name url with
    | Returns r => Returns r
    | Raises e => Returns (mkResult name None (Some (exc_str e)))
    end.
Proof.
  intros Hout. unfold fetch_epg, try_except.
  destruct (fetch_try w name url) as [r | e]; [reflexivity |].
  destruct e as [[] msg]; simpl; unfold bind, print; rewrite Hout; reflexivity.
Qed.

(** C7: the code at a failing input.  The locator is malformed (it has
    no scheme) and holds a letter outside ASCII, building the request
    raises with a message that quotes the locator, and the standard
    output has the ASCII encoding.  The exception of the [try] block is
    caught by the last [except] clause, whose print of the message
    raises in turn, outside the [try] block: [fetch_epg] returns no
    result and the exception goes on to its caller, where the claim says
    that an error result is returned and that nothing is propagated. *)
Theorem C7_handler_print_propagates :
  new_Request Sample.ascii_world Sample.e_acute fetch_headers
  = Raises (mkExc Exception
              ("unknown url type: '" ++ Sample.e_acute ++ "'")%string)
  ∧ fetch_try Sample.ascii_world "x" Sample.e_acute
    = Raises (mkExc Exception
                ("unknown url type: '" ++ Sample.e_acute ++ "'")%string)
  ∧ fetch_epg Sample.ascii_world "x" Sample.e_acute
    = Raises (mkExc Exception "'ascii' codec can't encode character")
  ∧ ¬ (∀ (w : World) (name url : string),
         ∃ r, fetch_epg w name url = Returns r).
Proof.
  repeat (split; [reflexivity |]).
  intros H. destruct (H Sample.ascii_world "x" Sample.e_acute) as [r Hr].
  discriminate Hr.
Qed.

(** ** The writer *)

Lemma string_app_assoc (s1 s2 s3 : string) :
  ((s1 ++ s2) ++ s3 = s1 ++ (s2 ++ s3))%string.
Proof.
  induction s1 as [| a s1 IH]; [reflexivity |].
  change (String a ((s1 ++ s2) ++ s3) = String a (s1 ++ (s2 ++ s3)))%string.
  rewrite IH. reflexivity.
Qed.

(** The files after [write_xml], for a path that can be opened. *)
Lemma write_xml_files (w : World) (tostring : Element → string) (root : Element)
    (path : string) (fs : FileSystem) :
  path ∉ fs_denied fs →
  fs_files (write_xml w tostring root path fs).1 !! path
  = Some (xml_declaration ++ doctype ++ tostring root)%string
  ∧ (∀ p, p ≠ path →
          fs_files (write_xml w tostring root path fs).1 !! p = fs_files fs !! p)
  ∧ fs_denied (write_xml w tostring root path fs).1 = fs_denied fs.
Proof.
  intros Hok. unfold write_xml, open_w.
  rewrite bool_decide_eq_false_2 by assumption. unfold file_write; simpl.
  split; [| split; [| reflexivity]].
  - rewrite !lookup_alter_eq, lookup_insert_eq. simpl.
    change (EmptyString ++ xml_declaration)%string with xml_declaration.
    rewrite string_app_assoc. reflexivity.
  - intros p Hp.
    rewrite !lookup_alter_ne, lookup_insert_ne by congruence. reflexivity.
Qed.


(** With a standard output that takes every text, the call returns. *)
Lemma write_xml_returns (w : World) (tostring : Element → string) (root : Element)
    (path : string) (fs : FileSystem) :
  path ∉ fs_denied fs → (∀ s, stdout_write w s = Returns tt) →
  (write_xml w tostring root path fs).2 = Returns tt.
Proof.
  intros Hok Hout. unfold write_xml, open_w.
  rewrite bool_decide_eq_false_2 by assumption. simpl.
  unfold bind, print, getsize, file_write. simpl. rewrite Hout.
  rewrite !lookup_alter_eq, lookup_insert_eq. simpl. apply Hout.
Qed.

(** C8: when the output path can be opened for writing, [write_xml]
    leaves a file at that path whose content is exactly: the line
    <?xml version=.1.0. encoding=.UTF-8.?> (each dot standing here for
    a double quote, character 34), a line feed (character 10), the line
    <!DOCTYPE tv SYSTEM .xmltv.dtd.>, a line feed, and then the
    serialization of the element tree, with nothing before, between or
    after, whatever the file held before and whatever is printed
    afterwards; the other files are as they were. *)
Theorem C8_write_xml_content
    (w : World) (tostring : Element → string) (root : Element)
    (output_path : string) (fs : FileSystem) :
  output_path ∉ fs_denied fs →
  fs_files (write_xml w tostring root output_path fs).1 !! output_path
  = Some ("<?xml version="
          ++ String "034"%char ("1.0"
          ++ String "034"%char (" encoding="
          ++ String "034"%char ("UTF-8"
          ++ String "034"%char ("?>"
          ++ String "010"%char ("<!DOCTYPE tv SYSTEM "
          ++ String "034"%char ("xmltv.dtd"
          ++ String "034"%char (">"
          ++ String "010"%char (tostring root)))))))))%string
  ∧ (∀ p, p ≠ output_path →
          fs_files (write_xml w tostring root output_path fs).1 !! p
          = fs_files fs !! p).
Proof.
  intros Hok.
  destruct (write_xml_files w tostring root output_path fs Hok)
    as (Hcontent & Hothers & _).
  split; [| exact Hothers].
  rewrite Hcontent. reflexivity.
Qed.

Lemma C8_witness :
  fs_files
    (write_xml Sample.ascii_world Sample.tag_only (combined (init Sample.now))
       "epg.xml" (mkFS {["epg.xml" := "stale"]} ∅)).1 !! "epg.xml"
  = Some ("<?xml version="
          ++ String "034"%char ("1.0"
          ++ String "034"%char (" encoding="
          ++ String "034"%char ("UTF-8"
          ++ String "034"%char ("?>"
          ++ String "010"%char ("<!DOCTYPE tv SYSTEM "
          ++ String "034"%char ("xmltv.dtd"
          ++ String "034"%char (">"
          ++ String "010"%char "<tv />"))))))))%string.
Proof.
  apply (proj1 (C8_write_xml_content Sample.ascii_world Sample.tag_only
                  (combined (init Sample.now)) "epg.xml"
                  (mkFS {["epg.xml" := "stale"]} ∅)
                  (not_elem_of_empty _))).
Defined.

Example xml_declaration_shape :
  String.length xml_declaration = 39
  ∧ String.get 0 xml_declaration = Some "<"%char
  ∧ String.get 38 xml_declaration = Some "010"%char.
Proof. repeat split. Qed.

Example doctype_shape :
  String.length doctype = 33
  ∧ String.index 0 "xmltv.dtd" doctype = Some 21
  ∧ String.get 32 doctype = Some "010"%char.
Proof. repeat split. Qed.

(** ** One child sequence *)

Lemma foldl_add_channel_children (cs0 : list Element) (st : MergeState) :
  ∃ cs, ET.children (combined (foldl add_channel st cs0))
        = ET.children (combined st) ++ cs
        ∧ cs `sublist_of` cs0.
Proof.
  revert st. induction cs0 as [| c cs0 IH]; intros st; simpl.
  - exists []. rewrite app_nil_r. split; [reflexivity | constructor].
  - destruct (IH (add_channel st c)) as (cs & Heq & Hsub). rewrite Heq.
    channel_cases st c.
    + exists cs. split; [reflexivity | apply sublist_cons, Hsub].
    + exists (c :: cs). simpl. rewrite <- app_assoc.
      split; [reflexivity | apply sublist_skip, Hsub].
    + exists cs. split; [reflexivity | apply sublist_cons, Hsub].
Qed.

Lemma foldl_add_programme_children (ps0 : list Element) (st : MergeState) :
  ∃ ps, ET.children (combined (foldl add_programme st ps0))
        = ET.children (combined st) ++ ps
        ∧ ps `sublist_of` ps0.
Proof.
  revert st. induction ps0 as [| p ps0 IH]; intros st; simpl.
  - exists []. rewrite app_nil_r. split; [reflexivity | constructor].
  - destruct (IH (add_programme st p)) as (ps & Heq & Hsub). rewrite Heq.
    programme_cases st p.
    + exists ps. split; [reflexivity | apply sublist_cons, Hsub].
    + exists (p :: ps). simpl. rewrite <- app_assoc.
      split; [reflexivity | apply sublist_skip, Hsub].
Qed.

Lemma sublist_findall_tag (l : list Element) (root : Element) (t : string) :
  l `sublist_of` ET.findall root t → Forall (λ c, ET.tag c = t) l.
Proof.
  intros Hsub. apply Forall_forall. intros c Hc.
  apply (findall_tag root). eapply elem_of_sublist; eassumption.
Qed.

(** C10: the combined document has a single child list.  Merging a root
    puts, after everything the list already holds, first the accepted
    channels of that root and then its accepted programmes, each in
    document order; so the channels accepted from a later result stand
    after the programmes accepted from the earlier ones, and the output
    can hold a programme before a channel, as it does for two results
    with one channel and one programme each. *)
Theorem C10_single_child_sequence :
  (∀ (st : MergeState) (root : Element),
     ∃ cs ps,
       ET.children (combined (merge_root st root))
         = ET.children (combined st) ++ cs ++ ps
       ∧ cs `sublist_of` ET.findall root "channel"
       ∧ ps `sublist_of` ET.findall root "programme"
       ∧ Forall (λ c, ET.tag c = "channel") cs
       ∧ Forall (λ p, ET.tag p = "programme") ps)
  ∧ (let r1 := Sample.ok "one" [Sample.chan "c1"; Sample.prog "c1" "0900" "1000"] in
     let r2 := Sample.ok "two" [Sample.chan "c2"; Sample.prog "c2" "0900" "1000"] in
     ET.children (combined (combine_epg_files Sample.now [r1; r2]))
     = [Sample.chan "c1"; Sample.prog "c1" "0900" "1000";
        Sample.chan "c2"; Sample.prog "c2" "0900" "1000"]).
Proof.
  split.
  - intros st root. unfold merge_root.
    destruct (foldl_add_channel_children (ET.findall root "channel") st)
      as (cs & Hcs & Hsubc).
    destruct (foldl_add_programme_children (ET.findall root "programme")
                (foldl add_channel st (ET.findall root "channel")))
      as (ps & Hps & Hsubp).
    exists cs, ps. rewrite Hps, Hcs, <- app_assoc.
    split; [reflexivity |].
    split; [assumption |]. split; [assumption |].
    split; eapply sublist_findall_tag; eassumption.
  - vm_compute. reflexivity.
Qed.

(** * Further properties *)

(** ** Which element is retained *)

Lemma foldl_add_channel_seen_id (l : list Element) (st : MergeState) (i : string) :
  i ∈ seen_channels st →
  ∃ rest, ET.children (combined (foldl add_channel st l))
          = ET.children (combined st) ++ rest
          ∧ Forall (λ e, channel_id e ≠ i) rest.
Proof.
  revert st. induction l as [| c l IH]; intros st Hi; simpl.
  - exists []. rewrite app_nil_r. split; [reflexivity | constructor].
  - assert (Hi' : i ∈ seen_channels (add_channel st c))
      by (rewrite add_channel_seen; apply elem_of_union_l, Hi).
    destruct (IH _ Hi') as (rest & Heq & Hrest). rewrite Heq. clear Heq Hi'.
    channel_cases st c.
    + exists rest. split; [reflexivity | assumption].
    + exists (c :: rest). simpl. rewrite <- app_assoc.
      split; [reflexivity |]. constructor; [| assumption].
      intros Heq. apply Hfresh. rewrite Heq. exact Hi.
    + exists rest. split; [reflexivity | assumption].
Qed.

Lemma foldl_add_programme_seen_key (l : list Element) (st : MergeState) (k : ProgKey) :
  k ∈ seen_programmes st →
  ∃ rest, ET.children (combined (foldl add_programme st l))
          = ET.children (combined st) ++ rest
          ∧ Forall (λ e, prog_key e ≠ k) rest.
Proof.
  revert st. induction l as [| p l IH]; intros st Hk; simpl.
  - exists []. rewrite app_nil_r. split; [reflexivity | constructor].
  - assert (Hk' : k ∈ seen_programmes (add_programme st p))
      by (rewrite add_programme_seen; apply elem_of_union_l, Hk).
    destruct (IH _ Hk') as (rest & Heq & Hrest). rewrite Heq. clear Heq Hk'.
    programme_cases st p.
    + exists rest. split; [reflexivity | assumption].
    + exists (p :: rest). simpl. rewrite <- app_assoc.
      split; [reflexivity |]. constructor; [| assumption].
      intros Heq. apply Hfresh. rewrite Heq. exact Hk.
Qed.

(** X1: in the channel loop the first element that carries a given
    non-empty, not yet seen id is appended at the moment it is met, and
    no element appended after it in that loop has the same id: the
    first one wins, whatever the later ones contain. *)
Theorem first_channel_with_id_wins
    (st : MergeState) (l1 l2 : list Element) (c : Element) :
  truthy (channel_id c) = true →
  channel_id c ∉ seen_channels st →
  Forall (λ c', channel_id c' ≠ channel_id c) l1 →
  ∃ rest,
    ET.children (combined (foldl add_channel st (l1 ++ c :: l2)))
    = ET.children (combined (foldl add_channel st l1)) ++ c :: rest
    ∧ Forall (λ e, channel_id e ≠ channel_id c) rest.
Proof.
  intros Ht Hfresh Hl1. rewrite foldl_app. simpl.
  set (st1 := foldl add_channel st l1).
  assert (Hfresh1 : channel_id c ∉ seen_channels st1).
  { unfold st1. rewrite foldl_add_channel_seen, elem_of_union.
    intros [H | H]; [exact (Hfresh H) |].
    apply elem_of_list_to_set, list_elem_of_filter in H as [_ H].
    apply list_elem_of_fmap in H as (c' & Heq & Hc').
    rewrite Forall_forall in Hl1. exact (Hl1 c' Hc' (eq_sym Heq)). }
  destruct (foldl_add_channel_seen_id l2 (add_channel st1 c) (channel_id c))
    as (rest & Heq & Hrest).
  { rewrite add_channel_accept by assumption. simpl.
    apply elem_of_union_l, elem_of_singleton. reflexivity. }
  exists rest. rewrite Heq. rewrite add_channel_accept by assumption. simpl.
  rewrite <- app_assoc. split; [reflexivity | assumption].
Qed.

Lemma first_channel_with_id_wins_witness :
  ∃ rest,
    ET.children
      (combined
         (foldl add_channel (init Sample.now)
            ([Sample.chan "1"]
             ++ Sample.chan "2" :: [Sample.chan "2"; Sample.chan "3"])))
    = ET.children (combined (foldl add_channel (init Sample.now) [Sample.chan "1"]))
      ++ Sample.chan "2" :: rest
    ∧ Forall (λ e, channel_id e ≠ channel_id (Sample.chan "2")) rest.
Proof.
  apply (first_channel_with_id_wins (init Sample.now) [Sample.chan "1"]
           [Sample.chan "2"; Sample.chan "3"] (Sample.chan "2")).
  - reflexivity.
  - simpl. apply not_elem_of_empty.
  - repeat constructor. discriminate.
Defined.

(** X2: in the programme loop the first element that carries a given
    not yet seen key is appended at the moment it is met, and no element
    appended after it in that loop has the same key, even when it
    differs from the first in its other attributes, its text or its
    children. *)
Theorem first_programme_with_key_wins
    (st : MergeState) (l1 l2 : list Element) (p : Element) :
  prog_key p ∉ seen_programmes st →
  Forall (λ p', prog_key p' ≠ prog_key p) l1 →
  ∃ rest,
    ET.children (combined (foldl add_programme st (l1 ++ p :: l2)))
    = ET.children (combined (foldl add_programme st l1)) ++ p :: rest
    ∧ Forall (λ e, prog_key e ≠ prog_key p) rest.
Proof.
  intros Hfresh Hl1. rewrite foldl_app. simpl.
  set (st1 := foldl add_programme st l1).
  assert (Hfresh1 : prog_key p ∉ seen_programmes st1).
  { unfold st1. rewrite foldl_add_programme_seen, elem_of_union.
    intros [H | H]; [exact (Hfresh H) |].
    apply elem_of_list_to_set, list_elem_of_fmap in H as (p' & Heq & Hp').
    rewrite Forall_forall in Hl1. exact (Hl1 p' Hp' (eq_sym Heq)). }
  destruct (foldl_add_programme_seen_key l2 (add_programme st1 p) (prog_key p))
    as (rest & Heq & Hrest).
  { rewrite add_programme_accept by assumption. simpl.
    apply elem_of_union_l, elem_of_singleton. reflexivity. }
  exists rest. rewrite Heq. rewrite add_programme_accept by assumption. simpl.
  rewrite <- app_assoc. split; [reflexivity | assumption].
Qed.

Lemma first_programme_with_key_wins_witness :
  ∃ rest,
    ET.children
      (combined
         (foldl add_programme (init Sample.now)
            ([] ++ Sample.prog "X" "20240101" "20240102"
                :: [ET.mkElement "programme"
                      [("channel", "X"); ("start", "20240101");
                       ("stop", "20240102"); ("lang", "en")]
                      (Some "other") None []])))
    = ET.children (combined (foldl add_programme (init Sample.now) []))
      ++ Sample.prog "X" "20240101" "20240102" :: rest
    ∧ Forall (λ e, prog_key e ≠ prog_key (Sample.prog "X" "20240101" "20240102"))
        rest.
Proof.
  apply (first_programme_with_key_wins (init Sample.now) []
           [ET.mkElement "programme"
              [("channel", "X"); ("start", "20240101");
               ("stop", "20240102"); ("lang", "en")]
              (Some "other") None []]
           (Sample.prog "X" "20240101" "20240102")).
  - simpl. apply not_elem_of_empty.
  - constructor.
Defined.

Lemma NoDup_fmap_elem_inj {A B : Type} (f : A → B) (l : list A) (x y : A) :
  NoDup (f <$> l) → x ∈ l → y ∈ l → f x = f y → x = y.
Proof.
  induction l as [| a l IH]; intros Hnd Hx Hy Heq.
  - inversion Hx.
  - rewrite fmap_cons in Hnd. apply NoDup_cons in Hnd as [Ha Hnd].
    apply elem_of_cons in Hx as [-> | Hx]; apply elem_of_cons in Hy as [-> | Hy].
    + reflexivity.
    + exfalso. apply Ha. rewrite Heq. apply list_elem_of_fmap. eauto.
    + exfalso. apply Ha. rewrite <- Heq. apply list_elem_of_fmap. eauto.
    + apply IH; assumption.
Qed.

Lemma findall_elem_of (e c : Element) (t : string) :
  c ∈ ET.findall e t ↔ c ∈ ET.children e ∧ ET.tag c = t.
Proof. unfold ET.findall. rewrite list_elem_of_filter. tauto. Qed.

Lemma merge_points_grow (now : string) (completed : list FetchResult)
    (i j : nat) (si sj : MergeState) :
  merge_points now completed !! i = Some si →
  merge_points now completed !! j = Some sj →
  (i ≤ j)%nat → grows si sj.
Proof.
  intros Hi Hj Hle. unfold merge_points in Hi, Hj.
  exact (chain_lookup grows _ _ i j si sj
           (run_points_chain completed (init now)) Hi Hj Hle).
Qed.

(** X3: an accepted element is never replaced.  If the output holds a
    channel at some point of the merge, then at every later point the
    channel of the output with that id is that very element; likewise
    for a programme and its key. *)
Theorem accepted_element_never_replaced
    (now : string) (completed : list FetchResult)
    (i j : nat) (si sj : MergeState) :
  merge_points now completed !! i = Some si →
  merge_points now completed !! j = Some sj →
  (i ≤ j)%nat →
  (∀ e e', e ∈ accepted_channels si → e' ∈ accepted_channels sj →
           channel_id e' = channel_id e → e' = e)
  ∧ (∀ e e', e ∈ accepted_programmes si → e' ∈ accepted_programmes sj →
             prog_key e' = prog_key e → e' = e).
Proof.
  intros Hi Hj Hle.
  pose proof (merge_points_grow now completed i j si sj Hi Hj Hle) as Hgrow.
  pose proof (merge_points_inv now completed) as Hinv.
  rewrite Forall_forall in Hinv.
  assert (Hsj : merge_inv sj)
    by (apply Hinv, list_elem_of_lookup; eauto).
  destruct Hsj as [H1 _ _ _ H5 _ _].
  unfold grows in Hgrow. destruct Hgrow as [more Hmore].
  split; intros e e' He He' Heq.
  - apply (NoDup_fmap_elem_inj channel_id (accepted_channels sj)); try assumption.
    unfold accepted_channels in *. apply findall_elem_of in He as [He Ht].
    apply findall_elem_of. split; [| exact Ht].
    rewrite Hmore. apply elem_of_app. left. exact He.
  - apply (NoDup_fmap_elem_inj prog_key (accepted_programmes sj)); try assumption.
    unfold accepted_programmes in *. apply findall_elem_of in He as [He Ht].
    apply findall_elem_of. split; [| exact Ht].
    rewrite Hmore. apply elem_of_app. left. exact He.
Qed.

Lemma accepted_element_never_replaced_witness :
  Sample.chan "1"
    ∈ accepted_channels (add_channel (init Sample.now) (Sample.chan "1"))
  ∧ Sample.chan "1"
      ∈ accepted_channels
          (combine_epg_files Sample.now [Sample.source_A; Sample.source_B])
  ∧ Sample.chan "1" = Sample.chan "1".
Proof.
  assert (H1 : Sample.chan "1"
               ∈ accepted_channels (add_channel (init Sample.now) (Sample.chan "1")))
    by (vm_compute; apply list_elem_of_here).
  assert (H2 : Sample.chan "1"
               ∈ accepted_channels
                   (combine_epg_files Sample.now [Sample.source_A; Sample.source_B]))
    by (vm_compute; apply list_elem_of_here).
  split; [exact H1 | split; [exact H2 |]].
  apply (proj1 (accepted_element_never_replaced Sample.now
                  [Sample.source_A; Sample.source_B] 1 4
                  (add_channel (init Sample.now) (Sample.chan "1"))
                  (combine_epg_files Sample.now [Sample.source_A; Sample.source_B])
                  eq_refl eq_refl (le_S _ _ (le_S _ _ (le_S _ _ (le_n _)))))
           (Sample.chan "1") (Sample.chan "1") H1 H2 eq_refl).
Defined.

(** ** Where the output comes from *)

Lemma foldl_add_channel_from (cs : list Element) (st : MergeState) (e : Element) :
  e ∈ ET.children (combined (foldl add_channel st cs)) →
  e ∈ ET.children (combined st) ∨ e ∈ cs.
Proof.
  destruct (foldl_add_channel_children cs st) as (acc & -> & Hsub).
  rewrite elem_of_app. intros [H | H]; [left; exact H | right].
  eapply elem_of_sublist; eassumption.
Qed.

Lemma foldl_add_programme_from (ps : list Element) (st : MergeState) (e : Element) :
  e ∈ ET.children (combined (foldl add_programme st ps)) →
  e ∈ ET.children (combined st) ∨ e ∈ ps.
Proof.
  destruct (foldl_add_programme_children ps st) as (acc & -> & Hsub).
  rewrite elem_of_app. intros [H | H]; [left; exact H | right].
  eapply elem_of_sublist; eassumption.
Qed.

Lemma process_result_from (st : MergeState) (r : FetchResult) (e : Element) :
  e ∈ ET.children (combined (process_result st r)) →
  e ∈ ET.children (combined st)
  ∨ ∃ root, merged_root r = Some root
            ∧ (e ∈ ET.findall root "channel" ∨ e ∈ ET.findall root "programme").
Proof.
  unfold process_result, merged_root.
  destruct (error_set (fr_error r)); [simpl; auto |].
  destruct (fr_root r) as [root |]; [| auto].
  unfold merge_root. intros H.
  apply foldl_add_programme_from in H as [H | H].
  - apply foldl_add_channel_from in H as [H | H]; [left; exact H |].
    right. exists root. auto.
  - right. exists root. auto.
Qed.

(** X4: the merger makes up no element and alters none.  Every child of
    the combined document is, as it stands, a [channel] or [programme]
    child of the root of some result that carried no error message. *)
Theorem output_elements_come_from_merged_roots
    (now : string) (completed : list FetchResult) (e : Element) :
  e ∈ ET.children (combined (combine_epg_files now completed)) →
  ∃ r root,
    r ∈ completed ∧ error_set (fr_error r) = false ∧ fr_root r = Some root
    ∧ e ∈ ET.children root
    ∧ (ET.tag e = "channel" ∨ ET.tag e = "programme").
Proof.
  unfold combine_epg_files.
  assert (Hgen : ∀ l st,
            e ∈ ET.children (combined (foldl process_result st l)) →
            e ∈ ET.children (combined st)
            ∨ ∃ r root, r ∈ l ∧ merged_root r = Some root
                ∧ (e ∈ ET.findall root "channel"
                   ∨ e ∈ ET.findall root "programme")).
  { induction l as [| r l IH]; intros st H; simpl in H; [left; exact H |].
    apply IH in H as [H | (r' & root & Hr' & Hm & He)].
    - apply process_result_from in H as [H | (root & Hm & He)];
        [left; exact H |].
      right. exists r, root. split; [apply list_elem_of_here | auto].
    - right. exists r', root. split; [apply list_elem_of_further, Hr' | auto]. }
  intros H. apply Hgen in H as [H | (r & root & Hr & Hm & He)].
  - simpl in H. inversion H.
  - exists r, root. unfold merged_root in Hm.
    destruct (error_set (fr_error r)); [discriminate |].
    split; [exact Hr |]. split; [reflexivity |]. split; [exact Hm |].
    destruct He as [He | He]; apply findall_elem_of in He as [He Ht]; auto.
Qed.

Lemma output_elements_come_from_merged_roots_witness :
  ∃ r root,
    r ∈ [Sample.source_A; Sample.source_B]
    ∧ error_set (fr_error r) = false ∧ fr_root r = Some root
    ∧ Sample.chan "3" ∈ ET.children root
    ∧ (ET.tag (Sample.chan "3") = "channel"
       ∨ ET.tag (Sample.chan "3") = "programme").
Proof.
  apply (output_elements_come_from_merged_roots Sample.now
           [Sample.source_A; Sample.source_B] (Sample.chan "3")).
  vm_compute. do 2 apply list_elem_of_further. apply list_elem_of_here.
Defined.

(** X5: the merger loses no identity.  For every result that carried no
    error message, each channel of its root with a non-empty id has its
    id among the ids of the accepted channels, and each programme of its
    root has its key among the keys of the accepted programmes, whatever
    the order of the results. *)
Theorem every_identity_is_represented
    (now : string) (completed : list FetchResult) (r : FetchResult)
    (root : Element) :
  r ∈ completed → error_set (fr_error r) = false → fr_root r = Some root →
  (∀ c, c ∈ ET.findall root "channel" → channel_id c ≠ EmptyString →
        ∃ c', c' ∈ accepted_channels (combine_epg_files now completed)
              ∧ channel_id c' = channel_id c)
  ∧ (∀ p, p ∈ ET.findall root "programme" →
          ∃ p', p' ∈ accepted_programmes (combine_epg_files now completed)
                ∧ prog_key p' = prog_key p).
Proof.
  intros Hr Herr Hroot.
  assert (Hm : merged_root r = Some root)
    by (unfold merged_root; rewrite Herr; exact Hroot).
  split.
  - intros c Hc Hid.
    assert (H : channel_id c ∈ accepted_channel_ids (combine_epg_files now completed)).
    { rewrite combine_seen_channels. apply elem_of_union_list.
      exists (result_channel_ids r). split.
      - apply list_elem_of_fmap. exists r. split; [reflexivity | exact Hr].
      - unfold result_channel_ids. rewrite Hm. simpl. unfold root_channel_ids.
        apply elem_of_list_to_set, list_elem_of_filter.
        split; [apply truthy_true, Hid |].
        apply list_elem_of_fmap. exists c. split; [reflexivity | exact Hc]. }
    unfold accepted_channel_ids in H.
    apply elem_of_list_to_set, list_elem_of_fmap in H as (c' & Heq & Hc').
    exists c'. split; [exact Hc' | symmetry; exact Heq].
  - intros p Hp.
    assert (H : prog_key p ∈ accepted_programme_keys (combine_epg_files now completed)).
    { rewrite combine_seen_programmes. apply elem_of_union_list.
      exists (result_programme_keys r). split.
      - apply list_elem_of_fmap. exists r. split; [reflexivity | exact Hr].
      - unfold result_programme_keys. rewrite Hm. simpl. unfold root_programme_keys.
        apply elem_of_list_to_set, list_elem_of_fmap.
        exists p. split; [reflexivity | exact Hp]. }
    unfold accepted_programme_keys in H.
    apply elem_of_list_to_set, list_elem_of_fmap in H as (p' & Heq & Hp').
    exists p'. split; [exact Hp' | symmetry; exact Heq].
Qed.

Lemma every_identity_is_represented_witness :
  ∃ c', c' ∈ accepted_channels
               (combine_epg_files Sample.now [Sample.source_A; Sample.source_B])
        ∧ channel_id c' = channel_id (Sample.chan "2").
Proof.
  apply (proj1 (every_identity_is_represented Sample.now
                  [Sample.source_A; Sample.source_B] Sample.source_B
                  (Sample.tv [Sample.chan "2"; Sample.chan "3"])
                  (list_elem_of_further _ _ _ (list_elem_of_here _ _))
                  eq_refl eq_refl)
           (Sample.chan "2")).
  - vm_compute. apply list_elem_of_here.
  - discriminate.
Defined.

(** ** The root of the combined document *)

Lemma add_channel_root (st : MergeState) (c : Element) :
  ET.tag (combined (add_channel st c)) = ET.tag (combined st)
  ∧ ET.attrib (combined (add_channel st c)) = ET.attrib (combined st)
  ∧ ET.text (combined (add_channel st c)) = ET.text (combined st)
  ∧ ET.tail (combined (add_channel st c)) = ET.tail (combined st).
Proof. channel_cases st c; repeat split. Qed.

Lemma add_programme_root (st : MergeState) (p : Element) :
  ET.tag (combined (add_programme st p)) = ET.tag (combined st)
  ∧ ET.attrib (combined (add_programme st p)) = ET.attrib (combined st)
  ∧ ET.text (combined (add_programme st p)) = ET.text (combined st)
  ∧ ET.tail (combined (add_programme st p)) = ET.tail (combined st).
Proof. programme_cases st p; repeat split. Qed.

(** The part of a state that the merge must leave alone. *)
Lemma process_result_root (st : MergeState) (r : FetchResult) :
  ET.tag (combined (process_result st r)) = ET.tag (combined st)
  ∧ ET.attrib (combined (process_result st r)) = ET.attrib (combined st)
  ∧ ET.text (combined (process_result st r)) = ET.text (combined st)
  ∧ ET.tail (combined (process_result st r)) = ET.tail (combined st).
Proof.
  unfold process_result.
  destruct (error_set (fr_error r)); [repeat split |].
  destruct (fr_root r) as [root |]; [| repeat split].
  unfold merge_root.
  apply (foldl_inv add_programme (λ _, True)
           (λ s, ET.tag (combined s) = ET.tag (combined st)
                 ∧ ET.attrib (combined s) = ET.attrib (combined st)
                 ∧ ET.text (combined s) = ET.text (combined st)
                 ∧ ET.tail (combined s) = ET.tail (combined st))).
  - intros s p _ (H1 & H2 & H3 & H4).
    destruct (add_programme_root s p) as (G1 & G2 & G3 & G4).
    rewrite G1, G2, G3, G4. auto.
  - apply Forall_forall. intros; exact I.
  - apply (foldl_inv add_channel (λ _, True)
             (λ s, ET.tag (combined s) = ET.tag (combined st)
                   ∧ ET.attrib (combined s) = ET.attrib (combined st)
                   ∧ ET.text (combined s) = ET.text (combined st)
                   ∧ ET.tail (combined s) = ET.tail (combined st))).
    + intros s c _ (H1 & H2 & H3 & H4).
      destruct (add_channel_root s c) as (G1 & G2 & G3 & G4).
      rewrite G1, G2, G3, G4. auto.
    + apply Forall_forall. intros; exact I.
    + auto.
Qed.

(** X6: whatever is merged, the root of the combined document stays the
    [tv] element stamped at the start: its attributes are the generator
    name, the generator URL and the date, in this order and with the
    clock reading taken before the first fetch, and it has no text.
    Merging changes the child list only. *)
Theorem combined_root_is_the_stamped_tv
    (now : string) (completed : list FetchResult) :
  let root := combined (combine_epg_files now completed) in
  ET.tag root = "tv"
  ∧ ET.attrib root
    = [("generator-info-name", "CouchStreaming EPG Combiner");
       ("generator-info-url", "https://github.com/globetvapp/epg");
       ("date", now)]
  ∧ ET.text root = None ∧ ET.tail root = None
  ∧ ET.get root "date" EmptyString = now.
Proof.
  assert (H : ET.tag (combined (combine_epg_files now completed))
              = ET.tag (combined (init now))
              ∧ ET.attrib (combined (combine_epg_files now completed))
                = ET.attrib (combined (init now))
              ∧ ET.text (combined (combine_epg_files now completed))
                = ET.text (combined (init now))
              ∧ ET.tail (combined (combine_epg_files now completed))
                = ET.tail (combined (init now))).
  { unfold combine_epg_files.
    apply (foldl_inv process_result (λ _, True)
             (λ s, ET.tag (combined s) = ET.tag (combined (init now))
                   ∧ ET.attrib (combined s) = ET.attrib (combined (init now))
                   ∧ ET.text (combined s) = ET.text (combined (init now))
                   ∧ ET.tail (combined s) = ET.tail (combined (init now)))).
    - intros s r _ (H1 & H2 & H3 & H4).
      destruct (process_result_root s r) as (G1 & G2 & G3 & G4).
      rewrite G1, G2, G3, G4. auto.
    - apply Forall_forall. intros; exact I.
    - auto. }
  destruct H as (H1 & H2 & H3 & H4). simpl.
  unfold ET.get. rewrite H1, H2, H3, H4. repeat split.
Qed.

(** ** The failure list and the statistics *)

Lemma process_result_failed_sources (st : MergeState) (r : FetchResult) :
  failed_sources (process_result st r)
  = failed_sources st ++ option_list (failure_entry r).
Proof.
  unfold process_result, failure_entry, error_set.
  destruct (fr_error r) as [e |]; simpl.
  - destruct (truthy e); simpl; [reflexivity |].
    destruct (fr_root r); [rewrite merge_root_failed_sources |];
      rewrite app_nil_r; reflexivity.
  - destruct (fr_root r); [rewrite merge_root_failed_sources |];
      rewrite app_nil_r; reflexivity.
Qed.

Lemma foldl_process_result_failed_sources (l : list FetchResult) (st : MergeState) :
  failed_sources (foldl process_result st l)
  = failed_sources st ++ omap failure_entry l.
Proof.
  revert st. induction l as [| r l IH]; intros st; simpl.
  - rewrite app_nil_r. reflexivity.
  - rewrite IH, process_result_failed_sources, <- app_assoc. f_equal.
    destruct (failure_entry r); reflexivity.
Qed.

(** X7: the failure list of a run is made of the results with a
    non-empty error message, each as (identifier, message), once per
    such result and in the order in which the results were processed;
    results without an error message leave no trace in it. *)
Theorem failed_sources_are_the_results_with_a_message
    (now : string) (completed : list FetchResult) :
  failed_sources (combine_epg_files now completed) = omap failure_entry completed
  ∧ (length (failed_sources (combine_epg_files now completed))
     ≤ length completed)%nat
  ∧ ∀ name e,
      (name, e) ∈ failed_sources (combine_epg_files now completed)
      ↔ e ≠ EmptyString
        ∧ ∃ r, r ∈ completed ∧ fr_name r = name ∧ fr_error r = Some e.
Proof.
  assert (H : failed_sources (combine_epg_files now completed)
              = omap failure_entry completed).
  { unfold combine_epg_files. rewrite foldl_process_result_failed_sources.
    reflexivity. }
  rewrite H. split; [reflexivity | split].
  - clear H. unfold omap.
    induction completed as [| r l IH]; simpl; [lia |].
    destruct (failure_entry r); simpl; lia.
  - intros name e. rewrite list_elem_of_omap. unfold failure_entry. split.
    + intros (r & Hr & Hentry).
      destruct (fr_error r) as [e' |] eqn:He; [| discriminate].
      destruct (truthy e') eqn:Ht; [| discriminate].
      injection Hentry as <- <-.
      split; [apply truthy_true, Ht |]. exists r. auto.
    + intros (Hne & r & Hr & Hname & He). exists r. split; [exact Hr |].
      rewrite He. apply truthy_true in Hne. rewrite Hne, Hname. reflexivity.
Qed.

Lemma failure_entry_count (l : list FetchResult) :
  (length (omap failure_entry l)
   + length (filter (λ r, error_set (fr_error r) = false) l) = length l)%nat.
Proof.
  unfold omap. induction l as [| r l IH]; simpl; [reflexivity |].
  rewrite filter_cons. unfold failure_entry at 1. unfold error_set at 1.
  destruct (fr_error r) as [e |]; simpl.
  - destruct (truthy e); simpl; lia.
  - lia.
Qed.

(** X8: with one result per source, the number reported as "Sources
    succeeded" is the number of results without an error message.  It
    counts a result that has neither a root nor a message like a
    successful one, and it lies between zero and the number of sources. *)
Theorem sources_succeeded_counts_results_without_message
    (now : string) (sources : list (string * string))
    (completed : list FetchResult) :
  length completed = length sources →
  sources_succeeded sources (combine_epg_files now completed)
  = Z.of_nat (length (filter (λ r, error_set (fr_error r) = false) completed))
  ∧ (0 ≤ sources_succeeded sources (combine_epg_files now completed)
     ≤ Z.of_nat (length sources))%Z.
Proof.
  intros Hlen. unfold sources_succeeded, combine_epg_files.
  rewrite foldl_process_result_failed_sources. simpl.
  pose proof (failure_entry_count completed) as Hcount.
  rewrite <- Hlen. split; lia.
Qed.

Lemma sources_succeeded_counts_results_without_message_witness :
  sources_succeeded [("A", "https://a.example/epg.xml"); ("B", EmptyString)]
    (combine_epg_files Sample.now
       [Sample.failed "B" EmptyString; Sample.source_A])
  = 2%Z.
Proof.
  apply (proj1 (sources_succeeded_counts_results_without_message Sample.now
                  [("A", "https://a.example/epg.xml"); ("B", EmptyString)]
                  [Sample.failed "B" EmptyString; Sample.source_A] eq_refl)).
Defined.

Lemma process_result_not_merged (st : MergeState) (r : FetchResult) :
  merged_root r = None →
  combined (process_result st r) = combined st
  ∧ seen_channels (process_result st r) = seen_channels st
  ∧ seen_programmes (process_result st r) = seen_programmes st
  ∧ total_channels (process_result st r) = total_channels st
  ∧ total_programmes (process_result st r) = total_programmes st.
Proof.
  unfold merged_root, process_result.
  destruct (error_set (fr_error r)); [repeat split |].
  intros ->. repeat split.
Qed.

(** X9: when no result is merged, because each one either carries an
    error message or has no root, and also when there is no result at
    all, the run still ends with a document: the stamped root without
    children, both counters at zero and both seen sets empty. *)
Theorem nothing_merged_gives_empty_document
    (now : string) (completed : list FetchResult) :
  Forall (λ r, error_set (fr_error r) = true ∨ fr_root r = None) completed →
  combined (combine_epg_files now completed) = combined (init now)
  ∧ ET.children (combined (combine_epg_files now completed)) = []
  ∧ total_channels (combine_epg_files now completed) = 0
  ∧ total_programmes (combine_epg_files now completed) = 0
  ∧ seen_channels (combine_epg_files now completed) = ∅
  ∧ seen_programmes (combine_epg_files now completed) = ∅.
Proof.
  intros Hall.
  assert (H : combined (combine_epg_files now completed) = combined (init now)
              ∧ seen_channels (combine_epg_files now completed)
                = seen_channels (init now)
              ∧ seen_programmes (combine_epg_files now completed)
                = seen_programmes (init now)
              ∧ total_channels (combine_epg_files now completed)
                = total_channels (init now)
              ∧ total_programmes (combine_epg_files now completed)
                = total_programmes (init now)).
  { unfold combine_epg_files.
    apply (foldl_inv process_result
             (λ r, error_set (fr_error r) = true ∨ fr_root r = None)
             (λ s, combined s = combined (init now)
                   ∧ seen_channels s = seen_channels (init now)
                   ∧ seen_programmes s = seen_programmes (init now)
                   ∧ total_channels s = total_channels (init now)
                   ∧ total_programmes s = total_programmes (init now)));
      [| exact Hall | repeat split].
    intros s r Hr (H1 & H2 & H3 & H4 & H5).
    assert (Hm : merged_root r = None).
    { unfold merged_root. destruct Hr as [-> | Hr]; [reflexivity |].
      destruct (error_set (fr_error r)); [reflexivity | exact Hr]. }
    destruct (process_result_not_merged s r Hm) as (G1 & G2 & G3 & G4 & G5).
    rewrite G1, G2, G3, G4, G5. auto. }
  destruct H as (H1 & H2 & H3 & H4 & H5).
  rewrite H1, H2, H3, H4, H5. repeat split.
Qed.

Lemma nothing_merged_gives_empty_document_witness :
  ET.children
    (combined
       (combine_epg_files Sample.now
          [Sample.failed "A" "HTTP Error 404: Not Found";
           Sample.failed "B" EmptyString])) = []
  ∧ ET.children (combined (combine_epg_files Sample.now [])) = [].
Proof.
  split.
  - apply (nothing_merged_gives_empty_document Sample.now
             [Sample.failed "A" "HTTP Error 404: Not Found";
              Sample.failed "B" EmptyString]).
    repeat constructor; right; reflexivity.
  - apply (nothing_merged_gives_empty_document Sample.now []). constructor.
Defined.

(** X10: the figures of the final report do not depend on the order in
    which the fetches complete: for the same results in another order
    the two counters are the same, the failure list holds the same
    entries (in the new order of the results), and so the number of
    succeeded sources is the same. *)
Theorem statistics_order_independent
    (now : string) (sources : list (string * string))
    (l1 l2 : list FetchResult) :
  l1 ≡ₚ l2 →
  total_channels (combine_epg_files now l1)
    = total_channels (combine_epg_files now l2)
  ∧ total_programmes (combine_epg_files now l1)
    = total_programmes (combine_epg_files now l2)
  ∧ failed_sources (combine_epg_files now l1)
    ≡ₚ failed_sources (combine_epg_files now l2)
  ∧ sources_succeeded sources (combine_epg_files now l1)
    = sources_succeeded sources (combine_epg_files now l2).
Proof.
  intros Hperm.
  assert (Hf : failed_sources (combine_epg_files now l1)
               ≡ₚ failed_sources (combine_epg_files now l2)).
  { unfold combine_epg_files. rewrite !foldl_process_result_failed_sources.
    simpl. rewrite Hperm. reflexivity. }
  pose proof (combine_inv now l1) as [A1 A2 A3 _ A5 A6 A7].
  pose proof (combine_inv now l2) as [B1 B2 B3 _ B5 B6 B7].
  repeat split.
  - rewrite A3, B3, <- !(length_fmap channel_id).
    rewrite <- !(size_list_to_set (C := gset string)) by assumption.
    fold (accepted_channel_ids (combine_epg_files now l1)).
    fold (accepted_channel_ids (combine_epg_files now l2)).
    rewrite !combine_seen_channels.
    rewrite (union_list_perm _ _ (fmap_Permutation result_channel_ids _ _ Hperm)).
    reflexivity.
  - rewrite A7, B7, <- !(length_fmap prog_key).
    rewrite <- !(size_list_to_set (C := gset ProgKey)) by assumption.
    fold (accepted_programme_keys (combine_epg_files now l1)).
    fold (accepted_programme_keys (combine_epg_files now l2)).
    rewrite !combine_seen_programmes.
    rewrite (union_list_perm _ _ (fmap_Permutation result_programme_keys _ _ Hperm)).
    reflexivity.
  - exact Hf.
  - unfold sources_succeeded. rewrite (Permutation_length Hf). reflexivity.
Qed.

Lemma statistics_order_independent_witness :
  total_channels (combine_epg_files Sample.now [Sample.source_A; Sample.source_B])
  = total_channels (combine_epg_files Sample.now [Sample.source_B; Sample.source_A]).
Proof.
  apply (statistics_order_independent Sample.now []
           [Sample.source_A; Sample.source_B] [Sample.source_B; Sample.source_A]).
  apply perm_swap.
Defined.

(** ** The fetcher, step by step *)

(** X11: when the standard output takes every text and the request is
    built, the address opened, the body read and the response closed
    without an exception, the parser is given the decompressed body
    exactly when the locator ends in .gz or the Content-Encoding header
    is the string gzip, and the body as received otherwise; a failure
    of the decompression or of the parser becomes the error of the
    result, with the identifier kept. *)
Theorem fetch_epg_decompresses_when_gzip
    (w : World) (name url : string) (req : Request) (response : Response)
    (data : bytes) :
  (∀ s, stdout_write w s = Returns tt) →
  new_Request w url fetch_headers = Returns req →
  urlopen w req 60 = Returns response →
  resp_read response = Returns data →
  resp_close response = Returns tt →
  fetch_epg w name url
  = match (if endswith url ".gz"
              || bool_decide (resp_header response "Content-Encoding" = Some "gzip")
           then gzip_decompress w data
           else Returns data) with
    | Raises e => Returns (mkResult name None (Some (exc_str e)))
    | Returns body =>
        match fromstring w body with
        | Returns root => Returns (mkResult name (Some root) None)
        | Raises e => Returns (mkResult name None (Some (exc_str e)))
        end
    end.
Proof.
  intros Hout Hreq Hopen Hread Hclose.
  rewrite (fetch_epg_of_try w name url Hout).
  unfold fetch_try, with_response, bind, print.
  rewrite Hout, Hreq, Hopen, Hread.
  destruct (if endswith url ".gz"
               || bool_decide (resp_header response "Content-Encoding" = Some "gzip")
            then gzip_decompress w data else Returns data) as [body | e].
  - destruct (fromstring w body) as [root | e];
      [rewrite Hout |]; rewrite Hclose; reflexivity.
  - rewrite Hclose. reflexivity.
Qed.

Lemma fetch_epg_decompresses_when_gzip_witness :
  fetch_epg (Sample.quiet_world (Sample.tv [])) "uk1" "https://example.org/uk1.xml.gz"
  = Returns (mkResult "uk1" (Some (Sample.tv [])) None).
Proof.
  apply (fetch_epg_decompresses_when_gzip (Sample.quiet_world (Sample.tv []))
           "uk1" "https://example.org/uk1.xml.gz"
           (mkRequest "https://example.org/uk1.xml.gz" fetch_headers)
           (mkResponse (Returns []) (λ _, None) (Returns tt)) []);
    reflexivity.
Defined.

(** X12: [fetch_epg] reports a root only when every step went through:
    the request was built with the two fixed headers, the address was
    opened with the timeout of 60, the body was read, decompressed when
    it had to be, parsed into that very root, and the response was
    closed without an exception.  A failure at any step, the closing
    included, leaves no root in the result. *)
Theorem fetch_epg_root_needs_every_step
    (w : World) (name url : string) (r : FetchResult) (root : Element) :
  fetch_epg w name url = Returns r → fr_root r = Some root →
  r = mkResult name (Some root) None
  ∧ ∃ req response data body,
      new_Request w url fetch_headers = Returns req
      ∧ urlopen w req 60 = Returns response
      ∧ resp_read response = Returns data
      ∧ (if endswith url ".gz"
            || bool_decide (resp_header response "Content-Encoding" = Some "gzip")
         then gzip_decompress w data else Returns data) = Returns body
      ∧ fromstring w body = Returns root
      ∧ resp_close response = Returns tt.
Proof.
  intros Hfetch Hroot.
  destruct (fetch_try w name url) as [r' | e] eqn:Htry.
  2: { rewrite (fetch_epg_after_raise w name url e r Htry Hfetch) in Hroot.
       discriminate. }
  assert (r' = r) as ->.
  { unfold fetch_epg, try_except in Hfetch. rewrite Htry in Hfetch.
    congruence. }
  clear Hfetch. revert Htry. unfold fetch_try, with_response, bind.
  destruct (stdout_write w _) as [[] |]; [| discriminate].
  destruct (new_Request w url fetch_headers) as [req | e] eqn:Hreq;
    [| discriminate].
  destruct (urlopen w req 60) as [response | e] eqn:Hopen; [| discriminate].
  destruct (resp_read response) as [data | e] eqn:Hread.
  - destruct (if endswith url ".gz"
                 || bool_decide (resp_header response "Content-Encoding" = Some "gzip")
              then gzip_decompress w data else Returns data)
      as [body | e] eqn:Hgz.
    + destruct (fromstring w body) as [root' | e] eqn:Hparse.
      * destruct (print w _) as [[] |].
        -- destruct (resp_close response) as [[] | e] eqn:Hclose;
             [| discriminate].
           intros [= <-]. simpl in Hroot. injection Hroot as <-.
           split; [reflexivity |].
           exists req, response, data, body. auto 10.
        -- destruct (resp_close response); discriminate.
      * destruct (resp_close response); discriminate.
    + destruct (resp_close response); discriminate.
  - destruct (resp_close response); discriminate.
Qed.

Lemma fetch_epg_root_needs_every_step_witness :
  mkResult "uk1" (Some (Sample.tv [])) None
  = mkResult "uk1" (Some (Sample.tv [])) None
  ∧ ∃ req response data body,
      new_Request (Sample.quiet_world (Sample.tv [])) "https://example.org/uk1.xml"
        fetch_headers = Returns req
      ∧ urlopen (Sample.quiet_world (Sample.tv [])) req 60 = Returns response
      ∧ resp_read response = Returns data
      ∧ (if endswith "https://example.org/uk1.xml" ".gz"
            || bool_decide (resp_header response "Content-Encoding" = Some "gzip")
         then gzip_decompress (Sample.quiet_world (Sample.tv [])) data
         else Returns data) = Returns body
      ∧ fromstring (Sample.quiet_world (Sample.tv [])) body = Returns (Sample.tv [])
      ∧ resp_close response = Returns tt.
Proof.
  apply (fetch_epg_root_needs_every_step (Sample.quiet_world (Sample.tv []))
           "uk1" "https://example.org/uk1.xml"
           (mkResult "uk1" (Some (Sample.tv [])) None) (Sample.tv []));
    reflexivity.
Defined.

(** ** The run as the caller sees it *)

Section QuietOutput.
Context (w : World) (Hout : ∀ s, stdout_write w s = Returns tt).

Lemma print_returns (s : string) : print w s = Returns tt.
Proof. apply Hout. Qed.

Lemma print_each_returns {A : Type} (line : A → string) (l : list A) :
  print_each w line l = Returns tt.
Proof.
  induction l as [| x l IH]; simpl; [reflexivity |].
  rewrite print_returns. exact IH.
Qed.

Lemma report_returns (sources : list (string * string)) (st : MergeState) :
  report w sources st = Returns tt.
Proof.
  unfold report, bind. rewrite !print_returns.
  destruct (failed_sources st) as [| entry entries]; [reflexivity |].
  apply print_each_returns.
Qed.

Lemma fetch_epg_returns (name url : string) :
  ∃ r, fetch_epg w name url = Returns r ∧ fr_name r = name.
Proof.
  rewrite (fetch_epg_of_try w name url Hout).
  destruct (fetch_try w name url) as [r | e] eqn:Htry.
  - destruct (fetch_try_returns _ _ _ _ Htry) as [root ->]. eauto.
  - eauto.
Qed.

Lemma merge_completed_returns (completed : list (string * string))
    (st : MergeState) :
  ∃ results,
    merge_completed w st completed = Returns (foldl process_result st results)
    ∧ Forall2 (λ source r, fetch_epg w source.1 source.2 = Returns r)
        completed results
    ∧ fr_name <$> results = completed.*1.
Proof.
  revert st. induction completed as [| [name url] rest IH]; intros st.
  - exists []. repeat split. constructor.
  - destruct (fetch_epg_returns name url) as (r & Hr & Hname).
    destruct (IH (process_result st r)) as (results & Hrun & Hall & Hnames).
    exists (r :: results). split; [| split].
    + simpl. rewrite Hr. simpl. exact Hrun.
    + constructor; assumption.
    + rewrite !fmap_cons, Hname, Hnames. reflexivity.
Qed.

Lemma combine_epg_run_returns (sched : Schedule) (now : string)
    (sources : list (string * string)) (max_workers : Z) :
  (0 < max_workers)%Z →
  ∃ results,
    combine_epg_run w sched now sources max_workers
    = Returns (combine_epg_files now results)
    ∧ Forall2 (λ source r, fetch_epg w source.1 source.2 = Returns r)
        (sched sources) results
    ∧ fr_name <$> results = (sched sources).*1.
Proof.
  intros Hpos. unfold combine_epg_run.
  destruct (Z.leb_spec max_workers 0) as [Hle | _]; [lia |].
  destruct (merge_completed_returns (sched sources) (init now))
    as (results & Hrun & Hall & Hnames).
  exists results. rewrite print_returns. simpl. rewrite Hrun. simpl.
  rewrite report_returns. simpl. auto.
Qed.

End QuietOutput.

(** X13: with a positive number of workers and a standard output that
    takes every text, the run returns, whatever the fetches do: it ends
    with the merge of one result per submitted source, taken in
    completion order, and each result is what [fetch_epg] returned for
    its source and bears its identifier; so every source is accounted
    for exactly once, as merged, as failed or as skipped. *)
Theorem run_merges_one_result_per_source
    (w : World) (sched : Schedule) (now : string)
    (sources : list (string * string)) (max_workers : Z) :
  (∀ s, stdout_write w s = Returns tt) →
  (0 < max_workers)%Z → sched sources ≡ₚ sources →
  ∃ results,
    combine_epg_run w sched now sources max_workers
    = Returns (combine_epg_files now results)
    ∧ Forall2 (λ source r, fetch_epg w source.1 source.2 = Returns r)
        (sched sources) results
    ∧ fr_name <$> results ≡ₚ sources.*1
    ∧ length results = length sources.
Proof.
  intros Hout Hpos Hperm.
  destruct (combine_epg_run_returns w Hout sched now sources max_workers Hpos)
    as (results & Hrun & Hall & Hnames).
  exists results. split; [exact Hrun |]. split; [exact Hall |]. split.
  - rewrite Hnames. apply fmap_Permutation, Hperm.
  - rewrite <- (length_fmap fr_name), Hnames, length_fmap.
    apply Permutation_length, Hperm.
Qed.

Lemma run_merges_one_result_per_source_witness :
  ∃ results,
    combine_epg_run Sample.dead_world reverse Sample.now
      [("A", "https://a.example/epg.xml"); ("B", EmptyString)] 5
    = Returns (combine_epg_files Sample.now results)
    ∧ Forall2 (λ source r,
                 fetch_epg Sample.dead_world source.1 source.2 = Returns r)
        (reverse [("A", "https://a.example/epg.xml"); ("B", EmptyString)])
        results
    ∧ fr_name <$> results ≡ₚ [("A", "https://a.example/epg.xml"); ("B", EmptyString)].*1
    ∧ length results
      = length [("A", "https://a.example/epg.xml"); ("B", EmptyString)].
Proof.
  apply (run_merges_one_result_per_source Sample.dead_world reverse Sample.now
           [("A", "https://a.example/epg.xml"); ("B", EmptyString)] 5).
  - reflexivity.
  - lia.
  - apply reverse_Permutation.
Defined.

Lemma foldl_failing_results (l : list (string * string)) (results : list FetchResult)
    (st : MergeState) :
  Forall2 (λ source r, ∃ msg, msg ≠ EmptyString
                              ∧ r = mkResult source.1 None (Some msg)) l results →
  foldl process_result st results
  = mkState (combined st) (seen_channels st) (seen_programmes st)
      (total_channels st) (total_programmes st)
      (failed_sources st ++ omap failure_entry results)
  ∧ Forall2 (λ source entry, ∃ msg, msg ≠ EmptyString
                                    ∧ entry = (source.1, msg))
      l (omap failure_entry results).
Proof.
  intros Hall. revert st.
  induction Hall as [| s r l results (msg & Hne & ->) _ IH]; intros st.
  - simpl. rewrite app_nil_r. split; [destruct st; reflexivity | constructor].
  - assert (Hres : process_result st (mkResult s.1 None (Some msg))
                   = record_failure st s.1 msg).
    { unfold process_result. simpl.
      apply truthy_true in Hne. rewrite Hne. reflexivity. }
    assert (Hentry : failure_entry (mkResult s.1 None (Some msg)) = Some (s.1, msg)).
    { unfold failure_entry. simpl.
      apply truthy_true in Hne. rewrite Hne. reflexivity. }
    destruct (IH (record_failure st s.1 msg)) as [Heq Hentries].
    change (foldl process_result st (mkResult s.1 None (Some msg) :: results))
      with (foldl process_result
              (process_result st (mkResult s.1 None (Some msg))) results).
    rewrite Hres, Heq. simpl. unfold omap in *. simpl. rewrite Hentry.
    rewrite <- app_assoc. split; [reflexivity |].
    constructor; [| exact Hentries]. exists msg. auto.
Qed.

(** X14: when the standard output takes every text and every fetch of a
    run raises in its [try] block with a non-empty message, the run
    still returns: the document has no child, the counters are zero,
    and the failure list names every source with the message of its
    exception, in completion order. *)
Theorem run_with_all_fetches_failing
    (w : World) (sched : Schedule) (now : string)
    (sources : list (string * string)) (max_workers : Z) :
  (∀ s, stdout_write w s = Returns tt) →
  (0 < max_workers)%Z →
  Forall (λ source, ∃ e, fetch_try w source.1 source.2 = Raises e
                         ∧ exc_str e ≠ EmptyString) (sched sources) →
  ∃ st, combine_epg_run w sched now sources max_workers = Returns st
        ∧ ET.children (combined st) = []
        ∧ total_channels st = 0 ∧ total_programmes st = 0
        ∧ Forall2 (λ source entry,
                     entry.1 = source.1
                     ∧ ∃ e, fetch_try w source.1 source.2 = Raises e
                            ∧ entry.2 = exc_str e)
            (sched sources) (failed_sources st).
Proof.
  intros Hout Hpos Hall.
  destruct (combine_epg_run_returns w Hout sched now sources max_workers Hpos)
    as (results & Hrun & Hfetch & _).
  assert (Hres : Forall2 (λ source r,
                            ∃ e, fetch_try w source.1 source.2 = Raises e
                                 ∧ exc_str e ≠ EmptyString
                                 ∧ r = mkResult source.1 None (Some (exc_str e)))
                   (sched sources) results).
  { clear Hrun. induction Hfetch as [| s r l results Hr _ IH].
    - constructor.
    - inversion Hall as [| ? ? (e & Htry & Hne) Hall']; subst.
      constructor; [| apply IH, Hall'].
      exists e. split; [exact Htry |]. split; [exact Hne |].
      exact (fetch_epg_after_raise w s.1 s.2 e r Htry Hr). }
  assert (Hmsg : Forall2 (λ source r, ∃ msg, msg ≠ EmptyString
                                             ∧ r = mkResult source.1 None (Some msg))
                   (sched sources) results).
  { eapply Forall2_impl; [exact Hres |].
    intros s r (e & _ & Hne & ->). eauto. }
  destruct (foldl_failing_results _ _ (init now) Hmsg) as [Heq _].
  exists (combine_epg_files now results). split; [exact Hrun |].
  unfold combine_epg_files. rewrite Heq. simpl. repeat split.
  clear Heq Hmsg Hrun Hfetch Hall.
  induction Hres as [| s r l results (e & Htry & Hne & ->) _ IH].
  - constructor.
  - unfold omap in *. simpl. unfold failure_entry at 1. simpl.
    apply truthy_true in Hne. rewrite Hne. constructor.
    + simpl. split; [reflexivity |]. exists e. auto.
    + exact IH.
Qed.

Lemma run_with_all_fetches_failing_witness :
  ∃ st, combine_epg_run Sample.dead_world reverse Sample.now
          [("A", "https://a.example/epg.xml"); ("B", EmptyString)] 5 = Returns st
        ∧ ET.children (combined st) = []
        ∧ total_channels st = 0 ∧ total_programmes st = 0
        ∧ Forall2 (λ source entry,
                     entry.1 = source.1
                     ∧ ∃ e, fetch_try Sample.dead_world source.1 source.2 = Raises e
                            ∧ entry.2 = exc_str e)
            (reverse [("A", "https://a.example/epg.xml"); ("B", EmptyString)])
            (failed_sources st).
Proof.
  apply (run_with_all_fetches_failing Sample.dead_world reverse Sample.now
           [("A", "https://a.example/epg.xml"); ("B", EmptyString)] 5).
  - reflexivity.
  - lia.
  - repeat constructor;
      (exists (mkExc Exception "unknown url type"); split;
       [reflexivity | discriminate]).
Defined.

(** ** The program *)

(** X15: run without [--list], with a positive number of workers, an
    output path that can be opened and a standard output that takes
    every text, the program returns normally whatever the fetches did;
    the file at the output path then holds the two fixed lines followed
    by the serialization of the tree merged from the results that
    [fetch_epg] returned for the sources of the table, in completion
    order, and no other file is touched. *)
Theorem main_writes_the_merged_tree
    (w : World) (sched : Schedule) (tostring : Element → string)
    (now : string) (args : Args) (fs : FileSystem) :
  (∀ s, stdout_write w s = Returns tt) →
  args_list args = false →
  (0 < args_workers args)%Z →
  args_output args ∉ fs_denied fs →
  ∃ results,
    Forall2 (λ source r, fetch_epg w source.1 source.2 = Returns r)
      (sched EPG_SOURCES) results
    ∧ (main w sched tostring now args fs).2 = Returns tt
    ∧ fs_files (main w sched tostring now args fs).1 !! args_output args
      = Some (xml_declaration ++ doctype
              ++ tostring (combined (combine_epg_files now results)))%string
    ∧ (∀ p, p ≠ args_output args →
            fs_files (main w sched tostring now args fs).1 !! p
            = fs_files fs !! p).
Proof.
  intros Hout Hlist Hpos Hok.
  destruct (combine_epg_run_returns w Hout sched now EPG_SOURCES
              (args_workers args) Hpos) as (results & Hrun & Hall & _).
  exists results. split; [exact Hall |].
  unfold main. rewrite Hlist, !(print_returns w Hout). simpl.
  rewrite Hrun.
  pose proof (write_xml_files w tostring
                (combined (combine_epg_files now results))
                (args_output args) fs Hok) as (Hcontent & Hothers & _).
  pose proof (write_xml_returns w tostring
                (combined (combine_epg_files now results))
                (args_output args) fs Hok Hout) as Hret.
  destruct (write_xml w tostring (combined (combine_epg_files now results))
              (args_output args) fs) as [fs' out].
  simpl in *. subst out. simpl.
  repeat split; assumption.
Qed.

Lemma main_writes_the_merged_tree_witness :
  ∃ results,
    Forall2 (λ source r,
               fetch_epg Sample.dead_world source.1 source.2 = Returns r)
      (reverse EPG_SOURCES) results
    ∧ (main Sample.dead_world reverse Sample.tag_only Sample.now
         (mkArgs "epg.xml" 5 false) Sample.no_files).2 = Returns tt
    ∧ fs_files
        (main Sample.dead_world reverse Sample.tag_only Sample.now
           (mkArgs "epg.xml" 5 false) Sample.no_files).1 !! "epg.xml"
      = Some (xml_declaration ++ doctype
              ++ Sample.tag_only
                   (combined (combine_epg_files Sample.now results)))%string.
Proof.
  destruct (main_writes_the_merged_tree Sample.dead_world reverse Sample.tag_only
              Sample.now (mkArgs "epg.xml" 5 false) Sample.no_files)
    as (results & H1 & H2 & H3 & _).
  - reflexivity.
  - reflexivity.
  - simpl. lia.
  - simpl. apply not_elem_of_empty.
  - exists results. repeat split; assumption.
Defined.




Example EPG_SOURCES_names_distinct : NoDup EPG_SOURCES.*1.
Proof. apply (bool_decide_unpack _). vm_compute. exact I. Qed.

(** X17: the table holds the source usa5 with an empty locator.  So in
    every run over the table in which the standard output takes every
    text and building a request for the empty locator raises with a
    message that is not empty, in whatever order the fetches complete,
    usa5 is in the failure list with that message and is not counted as
    succeeded. *)
Theorem usa5_fails_in_every_run
    (w : World) (sched : Schedule) (now : string) (max_workers : Z) (e : Exc) :
  (∀ s, stdout_write w s = Returns tt) →
  (0 < max_workers)%Z → sched EPG_SOURCES ≡ₚ EPG_SOURCES →
  new_Request w EmptyString fetch_headers = Raises e →
  exc_str e ≠ EmptyString →
  ∃ st, combine_epg_run w sched now EPG_SOURCES max_workers = Returns st
        ∧ ("usa5", exc_str e) ∈ failed_sources st
        ∧ (sources_succeeded EPG_SOURCES st < 18)%Z.
Proof.
  intros Hout Hpos Hperm Hreq Hne.
  destruct (combine_epg_run_returns w Hout sched now EPG_SOURCES max_workers Hpos)
    as (results & Hrun & Hall & _).
  exists (combine_epg_files now results). split; [exact Hrun |].
  assert (Hin : ("usa5", exc_str e)
                ∈ failed_sources (combine_epg_files now results)).
  { unfold combine_epg_files. rewrite foldl_process_result_failed_sources.
    simpl. apply list_elem_of_omap.
    assert (Hsrc : ("usa5", EmptyString) ∈ sched EPG_SOURCES).
    { rewrite Hperm. do 4 apply list_elem_of_further. apply list_elem_of_here. }
    apply list_elem_of_lookup in Hsrc as [i Hi].
    destruct (Forall2_lookup_l _ _ _ _ _ Hall Hi) as (r & Hr & Hfetch).
    exists r. split; [apply list_elem_of_lookup; eauto |].
    simpl in Hfetch.
    assert (Htry : fetch_try w "usa5" EmptyString = Raises e).
    { unfold fetch_try, bind. rewrite Hout, Hreq. reflexivity. }
    rewrite (fetch_epg_after_raise w "usa5" EmptyString e r Htry Hfetch).
    unfold failure_entry. simpl.
    apply truthy_true in Hne. rewrite Hne. reflexivity. }
  split; [exact Hin |].
  unfold sources_succeeded.
  apply list_elem_of_lookup in Hin as [i Hi]. apply lookup_lt_Some in Hi.
  change (length EPG_SOURCES) with 18%nat. lia.
Qed.

Lemma usa5_fails_in_every_run_witness :
  ∃ st, combine_epg_run Sample.dead_world reverse Sample.now EPG_SOURCES 5
        = Returns st
        ∧ ("usa5", "unknown url type") ∈ failed_sources st
        ∧ (sources_succeeded EPG_SOURCES st < 18)%Z.
Proof.
  apply (usa5_fails_in_every_run Sample.dead_world reverse Sample.now 5
           (mkExc Exception "unknown url type")).
  - reflexivity.
  - lia.
  - apply reverse_Permutation.
  - reflexivity.
  - discriminate.
Defined.

(** X21: what is written stays written.  Run without [--list], once the
    fetching and merging have returned a tree and the output path can
    be opened, the file at the output path holds the two fixed lines
    and the serialization of that tree, and no other file is touched,
    also when a print that follows the writing raises and the program
    ends with that exception. *)
Theorem main_leaves_the_file_written
    (w : World) (sched : Schedule) (tostring : Element → string)
    (now : string) (args : Args) (fs : FileSystem) (st : MergeState) :
  args_list args = false →
  (_ <~ print w "EPG Combiner - CouchStreaming" ;;
   _ <~ print w (rule 50) ;;
   combine_epg_run w sched now EPG_SOURCES (args_workers args)) = Returns st →
  args_output args ∉ fs_denied fs →
  fs_files (main w sched tostring now args fs).1 !! args_output args
  = Some (xml_declaration ++ doctype ++ tostring (combined st))%string
  ∧ (∀ p, p ≠ args_output args →
          fs_files (main w sched tostring now args fs).1 !! p
          = fs_files fs !! p).
Proof.
  intros Hlist Hrun Hok. unfold main. rewrite Hlist, Hrun.
  pose proof (write_xml_files w tostring (combined st) (args_output args) fs Hok)
    as (Hcontent & Hothers & _).
  destruct (write_xml w tostring (combined st) (args_output args) fs)
    as [fs' [[] | e]]; simpl in *; split; assumption.
Qed.

Lemma main_leaves_the_file_written_witness :
  (main Sample.ascii_world reverse Sample.tag_only Sample.now
     (mkArgs ("epg" ++ Sample.e_acute) 5 false) Sample.no_files).2
  = Raises (mkExc Exception "'ascii' codec can't encode character")
  ∧ fs_files
      (main Sample.ascii_world reverse Sample.tag_only Sample.now
         (mkArgs ("epg" ++ Sample.e_acute) 5 false) Sample.no_files).1
      !! ("epg" ++ Sample.e_acute)%string
    = Some (xml_declaration ++ doctype ++ "<tv />")%string.
Proof.
  split; [vm_compute; reflexivity |].
  assert (Hrun : ∃ st,
            (_ <~ print Sample.ascii_world "EPG Combiner - CouchStreaming" ;;
             _ <~ print Sample.ascii_world (rule 50) ;;
             combine_epg_run Sample.ascii_world reverse Sample.now EPG_SOURCES 5)
            = Returns st ∧ ET.tag (combined st) = "tv").
  { eexists. split; vm_compute; reflexivity. }
  destruct Hrun as (st & Hrun & Htag).
  destruct (main_leaves_the_file_written Sample.ascii_world reverse
              Sample.tag_only Sample.now
              (mkArgs ("epg" ++ Sample.e_acute) 5 false) Sample.no_files st
              eq_refl Hrun (not_elem_of_empty _)) as [Hcontent _].
  etransitivity; [exact Hcontent |].
  unfold Sample.tag_only. rewrite Htag. reflexivity.
Defined.


(** ** What is not dropped *)

Lemma foldl_add_channel_all_fresh (cs : list Element) (st : MergeState) :
  Forall (λ c, truthy (channel_id c) = true) cs →
  NoDup (channel_id <$> cs) →
  Forall (λ c, channel_id c ∉ seen_channels st) cs →
  ET.children (combined (foldl add_channel st cs))
  = ET.children (combined st) ++ cs.
Proof.
  revert st. induction cs as [| c cs IH]; intros st Ht Hnd Hfresh; simpl.
  - rewrite app_nil_r. reflexivity.
  - inversion Ht as [| ? ? Htc Ht']; subst.
    inversion Hfresh as [| ? ? Hfc Hfresh']; subst.
    rewrite fmap_cons in Hnd. apply NoDup_cons in Hnd as [Hc Hnd].
    rewrite IH; try assumption.
    + rewrite add_channel_accept by assumption. simpl.
      rewrite <- app_assoc. reflexivity.
    + rewrite add_channel_accept by assumption. simpl.
      rewrite Forall_forall in Hfresh'. apply Forall_forall. intros c' Hc'.
      rewrite elem_of_union, elem_of_singleton. intros [Heq | Hseen].
      * apply Hc. rewrite <- Heq. apply list_elem_of_fmap. eauto.
      * exact (Hfresh' c' Hc' Hseen).
Qed.

Lemma foldl_add_programme_all_fresh (ps : list Element) (st : MergeState) :
  NoDup (prog_key <$> ps) →
  Forall (λ p, prog_key p ∉ seen_programmes st) ps →
  ET.children (combined (foldl add_programme st ps))
  = ET.children (combined st) ++ ps.
Proof.
  revert st. induction ps as [| p ps IH]; intros st Hnd Hfresh; simpl.
  - rewrite app_nil_r. reflexivity.
  - inversion Hfresh as [| ? ? Hfp Hfresh']; subst.
    rewrite fmap_cons in Hnd. apply NoDup_cons in Hnd as [Hp Hnd].
    rewrite IH; try assumption.
    + rewrite add_programme_accept by assumption. simpl.
      rewrite <- app_assoc. reflexivity.
    + rewrite add_programme_accept by assumption. simpl.
      rewrite Forall_forall in Hfresh'. apply Forall_forall. intros p' Hp'.
      rewrite elem_of_union, elem_of_singleton. intros [Heq | Hseen].
      * apply Hp. rewrite <- Heq. apply list_elem_of_fmap. eauto.
      * exact (Hfresh' p' Hp' Hseen).
Qed.

(** X18: the merger drops nothing but repeated identities and channels
    without an id.  When the channels of a root all have non-empty ids,
    different from one another and from the ids seen so far, and its
    programmes have keys different from one another and from the keys
    seen so far, then merging the root appends all its channels and then
    all its programmes, in document order, and adds their number to the
    counters. *)
Theorem merge_root_keeps_all_fresh_elements (st : MergeState) (root : Element) :
  Forall (λ c, channel_id c ≠ EmptyString) (ET.findall root "channel") →
  NoDup (channel_id <$> ET.findall root "channel") →
  Forall (λ c, channel_id c ∉ seen_channels st) (ET.findall root "channel") →
  NoDup (prog_key <$> ET.findall root "programme") →
  Forall (λ p, prog_key p ∉ seen_programmes st) (ET.findall root "programme") →
  ET.children (combined (merge_root st root))
  = ET.children (combined st)
    ++ ET.findall root "channel" ++ ET.findall root "programme".
Proof.
  intros Ht Hndc Hfc Hndp Hfp. unfold merge_root.
  rewrite foldl_add_programme_all_fresh.
  - rewrite foldl_add_channel_all_fresh, <- app_assoc; try assumption;
      [reflexivity |].
    eapply Forall_impl; [exact Ht |]. intros c Hc. apply truthy_true, Hc.
  - assumption.
  - rewrite foldl_add_channel_seen_programmes. assumption.
Qed.

Lemma merge_root_keeps_all_fresh_elements_witness :
  ET.children
    (combined
       (merge_root (init Sample.now)
          (Sample.tv [Sample.chan "1"; Sample.prog "1" "0900" "1000";
                      Sample.chan "2"])))
  = ET.children (combined (init Sample.now))
    ++ [Sample.chan "1"; Sample.chan "2"] ++ [Sample.prog "1" "0900" "1000"].
Proof.
  apply (merge_root_keeps_all_fresh_elements (init Sample.now)
           (Sample.tv [Sample.chan "1"; Sample.prog "1" "0900" "1000";
                       Sample.chan "2"])).
  - repeat constructor; discriminate.
  - apply (bool_decide_unpack _). vm_compute. exact I.
  - repeat constructor; simpl; apply not_elem_of_empty.
  - apply (bool_decide_unpack _). vm_compute. exact I.
  - repeat constructor; simpl; apply not_elem_of_empty.
Defined.

(** ** Writing again *)

(** X19: the writer replaces, it does not append.  Writing a second tree
    to the path of a first one leaves the file with the two fixed lines
    and the serialization of the second tree only, and the other files
    as they were before the first writing, whatever is printed after
    either writing. *)
Theorem write_xml_replaces_previous_output
    (w : World) (tostring : Element → string) (root1 root2 : Element)
    (path : string) (fs : FileSystem) :
  path ∉ fs_denied fs →
  let fs1 := (write_xml w tostring root1 path fs).1 in
  let fs2 := (write_xml w tostring root2 path fs1).1 in
  fs_files fs1 !! path
  = Some (xml_declaration ++ doctype ++ tostring root1)%string
  ∧ fs_files fs2 !! path
    = Some (xml_declaration ++ doctype ++ tostring root2)%string
  ∧ (∀ p, p ≠ path → fs_files fs2 !! p = fs_files fs !! p).
Proof.
  intros Hok fs1 fs2.
  destruct (write_xml_files w tostring root1 path fs Hok) as (Hc1 & Ho1 & Hd1).
  assert (Hok1 : path ∉ fs_denied fs1) by (unfold fs1; rewrite Hd1; exact Hok).
  destruct (write_xml_files w tostring root2 path fs1 Hok1) as (Hc2 & Ho2 & _).
  split; [exact Hc1 |]. split; [exact Hc2 |].
  intros p Hp. unfold fs2. rewrite (Ho2 p Hp). apply Ho1, Hp.
Qed.

Lemma write_xml_replaces_previous_output_witness :
  fs_files
    (write_xml Sample.dead_world Sample.tag_only (Sample.tv []) "epg.xml"
       (write_xml Sample.dead_world Sample.tag_only (Sample.chan "1") "epg.xml"
          Sample.no_files).1).1 !! "epg.xml"
  = Some (xml_declaration ++ doctype ++ "<tv />")%string.
Proof.
  apply (proj1 (proj2 (write_xml_replaces_previous_output Sample.dead_world
                         Sample.tag_only (Sample.chan "1") (Sample.tv [])
                         "epg.xml" Sample.no_files (not_elem_of_empty _)))).
Defined.
